(** * EncryptedLuckyDraw: a shallow embedding of the raffle contract

    The contract [contracts/EncryptedLuckyDraw.sol] keeps a registry of
    participants, lets the administrator draw a winner from block data, and
    publishes the outcome only as ciphertext handles with per-account decrypt
    grants.  Storage is a record, Solidity mappings are finite maps read with
    the type's zero value as default, a transaction is a function from the
    state before to either a revert or an event and the state after. *)

From Stdlib Require Import ZArith Lia String.
From stdpp Require Import base option list gmap.

Open Scope Z_scope.

(** ** Machine integers *)

(** The explicit casts [uint32(...)] and [uint256(...)] keep the low bits. *)
Definition uint32 (x : Z) : Z := x mod 2 ^ 32.
Definition uint256 (x : Z) : Z := x mod 2 ^ 256.

(** Reading [m[k]] from a Solidity mapping: an absent key reads as the zero
    value [d] of the value type. *)
Definition rd {V : Type} (d : V) (m : gmap Z V) (k : Z) : V := default d (m !! k).

(** ** The encryption library *)

Inductive FheType : Type := Bool | Uint32.

(** Modelled from the spec: the encryption library ([FHE.sol]) is a
    dependency that is not under src/; the spec describes it as supplying
    opaque ciphertext handles and an access-control primitive for granting
    decrypt rights.  A handle is the 32-byte name the coprocessor derives from
    an operation and its operands, so it is modelled as the term of that
    derivation: the uninitialised handle [bytes32(0)], a verified user input,
    the trivial encryption of a clear value, and the encrypted comparison of
    two handles. *)
Inductive handle : Type :=
| HZero
| HInput (raw : Z)
| HTrivial (ty : FheType) (pt : Z)
| HEq (lhs rhs : handle).

#[global] Instance FheType_eq_dec : EqDecision FheType.
Proof. solve_decision. Defined.

#[global] Instance handle_eq_dec : EqDecision handle.
Proof. solve_decision. Defined.

Definition fhe_modulus (ty : FheType) : Z :=
  match ty with Bool => 2 | Uint32 => 2 ^ 32 end.

(** Modelled from the spec: user decryption, which is not under src/.  It is
    what a holder of a decrypt grant obtains for a handle: the clear value of
    a trivial encryption, the outcome of an encrypted comparison.  The clear
    value behind a user input is known to that user only, and the
    uninitialised handle names no ciphertext. *)
Fixpoint decrypt (h : handle) : option Z :=
  match h with
  | HZero => None
  | HInput _ => None
  | HTrivial ty pt => Some (pt mod fhe_modulus ty)
  | HEq lhs rhs =>
      match decrypt lhs, decrypt rhs with
      | Some a, Some b => Some (if a =? b then 1 else 0)
      | _, _ => None
      end
  end.

(** Modelled from the spec: [FHE.asEbool(b)] of the library, the trivial
    encryption of a boolean. *)
Definition FHE_asEbool (b : bool) : handle := HTrivial Bool (if b then 1 else 0).

(** Modelled from the spec: [FHE.asEuint32(v)] of the library, the trivial
    encryption of a 32-bit value. *)
Definition FHE_asEuint32 (v : Z) : handle := HTrivial Uint32 v.

(** Modelled from the spec: the library replaces an uninitialised operand by
    an encrypted zero before it computes on it. *)
Definition initialized32 (h : handle) : handle :=
  match h with HZero => FHE_asEuint32 0 | _ => h end.

(** Modelled from the spec: [FHE.eq(a, b)] of the library on two [euint32],
    the index comparison under encryption. *)
Definition FHE_eq (a b : handle) : handle := HEq (initialized32 a) (initialized32 b).

(** Modelled from the spec: the library meters the homomorphic compute units
    of the operations a transaction performs and reverts with
    [HCUTransactionLimitExceeded] once their sum would pass the limit of
    20,000,000 units per transaction.  The meter of this model counts the
    encrypted comparisons, the operation at which a draw exhausts the limit;
    a trivial encryption costs next to nothing beside one. *)
Definition MAX_HCU_PER_TX : Z := 20000000.

(** ** What the platform supplies

    The address of the deployed contract, the hash function, the input
    verifier that checks the proof accompanying a user ciphertext, and the
    compute units one encrypted comparison of two [euint32] costs.  The hash
    takes the sequence of 32-byte words that [abi.encodePacked] and
    [abi.encode] produce for the static 32-byte arguments used here. *)
Class Platform : Type := {
  this : Z;
  keccak256 : list Z → Z;
  verifyInput : Z → Z → list Byte.byte → bool;
  hcuEq : positive
}.

(** The part of the transaction and block context the contract reads. *)
Record env : Type := mkEnv {
  msg_sender : Z;
  block_number : Z;
  block_timestamp : Z;
  block_prevrandao : Z;
  blockhash : Z → Z
}.

(** ** Storage *)

Record state : Type := mkState {
  ADMIN_ADDRESS : Z;
  MAX_PARTICIPANTS : Z;
  _participants : list Z;
  _registered : gmap Z bool;
  _indices : gmap Z Z;
  _encryptedIds : gmap Z handle;
  _winStatus : gmap Z handle;
  _encryptedWinnerIndex : handle;
  _hasDrawn : bool;
  _lastDrawTimestamp : Z;
  (** the decrypt grants persisted by the access-control contract *)
  acl : list (handle * Z)
}.

Definition set_participants (v : list Z) (s : state) : state :=
  mkState (ADMIN_ADDRESS s) (MAX_PARTICIPANTS s) v (_registered s) (_indices s)
    (_encryptedIds s) (_winStatus s) (_encryptedWinnerIndex s) (_hasDrawn s)
    (_lastDrawTimestamp s) (acl s).

Definition set_registered (v : gmap Z bool) (s : state) : state :=
  mkState (ADMIN_ADDRESS s) (MAX_PARTICIPANTS s) (_participants s) v (_indices s)
    (_encryptedIds s) (_winStatus s) (_encryptedWinnerIndex s) (_hasDrawn s)
    (_lastDrawTimestamp s) (acl s).

Definition set_indices (v : gmap Z Z) (s : state) : state :=
  mkState (ADMIN_ADDRESS s) (MAX_PARTICIPANTS s) (_participants s) (_registered s) v
    (_encryptedIds s) (_winStatus s) (_encryptedWinnerIndex s) (_hasDrawn s)
    (_lastDrawTimestamp s) (acl s).

Definition set_encryptedIds (v : gmap Z handle) (s : state) : state :=
  mkState (ADMIN_ADDRESS s) (MAX_PARTICIPANTS s) (_participants s) (_registered s)
    (_indices s) v (_winStatus s) (_encryptedWinnerIndex s) (_hasDrawn s)
    (_lastDrawTimestamp s) (acl s).

Definition set_winStatus (v : gmap Z handle) (s : state) : state :=
  mkState (ADMIN_ADDRESS s) (MAX_PARTICIPANTS s) (_participants s) (_registered s)
    (_indices s) (_encryptedIds s) v (_encryptedWinnerIndex s) (_hasDrawn s)
    (_lastDrawTimestamp s) (acl s).

Definition set_encryptedWinnerIndex (v : handle) (s : state) : state :=
  mkState (ADMIN_ADDRESS s) (MAX_PARTICIPANTS s) (_participants s) (_registered s)
    (_indices s) (_encryptedIds s) (_winStatus s) v (_hasDrawn s)
    (_lastDrawTimestamp s) (acl s).

Definition set_hasDrawn (v : bool) (s : state) : state :=
  mkState (ADMIN_ADDRESS s) (MAX_PARTICIPANTS s) (_participants s) (_registered s)
    (_indices s) (_encryptedIds s) (_winStatus s) (_encryptedWinnerIndex s) v
    (_lastDrawTimestamp s) (acl s).

Definition set_lastDrawTimestamp (v : Z) (s : state) : state :=
  mkState (ADMIN_ADDRESS s) (MAX_PARTICIPANTS s) (_participants s) (_registered s)
    (_indices s) (_encryptedIds s) (_winStatus s) (_encryptedWinnerIndex s)
    (_hasDrawn s) v (acl s).

Definition set_acl (v : list (handle * Z)) (s : state) : state :=
  mkState (ADMIN_ADDRESS s) (MAX_PARTICIPANTS s) (_participants s) (_registered s)
    (_indices s) (_encryptedIds s) (_winStatus s) (_encryptedWinnerIndex s)
    (_hasDrawn s) (_lastDrawTimestamp s) v.

(** ** Events, errors, results *)

Inductive event : Type :=
| ParticipantRegistered (participant : Z) (index : Z)
| WinnerDrawn (randomnessCommitment : Z) (participantCount : Z).

Inductive error : Type :=
| AlreadyRegistered
| NotRegistered
| NotAuthorized
| NoParticipants
| Error (message : string)
| Panic (code : Z)
| InvalidInputProof
| HCUTransactionLimitExceeded.

Inductive result (A : Type) : Type :=
| Ok (a : A)
| Revert (e : error).
Arguments Ok {A} a.
Arguments Revert {A} e.

Inductive call : Type :=
| Register (encryptedIdInput : Z) (inputProof : list Byte.byte)
| DrawWinner.

Section Contract.
Context `{Platform}.

(** Modelled from the spec: [FHE.allow(h, account)] of the library, the
    access-control primitive; it records a decrypt grant.  The library lets a
    contract grant only handles it is itself allowed on; every handle granted
    below was produced in the same transaction or granted to the contract when
    it was stored, so that check is left out. *)
Definition FHE_allow (h : handle) (account : Z) (s : state) : state :=
  set_acl ((h, account) :: acl s) s.

(** Modelled from the spec: [FHE.allowThis(h)] grants the contract itself. *)
Definition FHE_allowThis (h : handle) (s : state) : state :=
  FHE_allow h this s.

(** Modelled from the spec: [FHE.fromExternal(input, proof)] of the library;
    the verified input keeps its handle, a rejected proof reverts. *)
Definition FHE_fromExternal (e : env) (input : Z) (inputProof : list Byte.byte)
  : option handle :=
  if verifyInput input (msg_sender e) inputProof then Some (HInput input) else None.

Definition constructor (e : env) (maxParticipants : Z) : state :=
  mkState (msg_sender e) maxParticipants [] ∅ ∅ ∅ ∅ HZero false 0 [].

Definition register (e : env) (encryptedIdInput : Z) (inputProof : list Byte.byte)
    (s : state) : result (event * state) :=
  if rd false (_registered s) (msg_sender e) then Revert AlreadyRegistered
  else if MAX_PARTICIPANTS s <=? Z.of_nat (length (_participants s))
  then Revert (Error "Maximum participants reached")
  else
    match FHE_fromExternal e encryptedIdInput inputProof with
    | None => Revert InvalidInputProof
    | Some encryptedId =>
        let s := set_participants (_participants s ++ [msg_sender e]) s in
        let participantIndex := uint32 (Z.of_nat (length (_participants s)) - 1) in
        let s := set_indices (<[msg_sender e := participantIndex]> (_indices s)) s in
        let s := set_registered (<[msg_sender e := true]> (_registered s)) s in
        let s := set_encryptedIds (<[msg_sender e := encryptedId]> (_encryptedIds s)) s in
        let s := FHE_allowThis (rd HZero (_encryptedIds s) (msg_sender e)) s in
        let s := FHE_allow (rd HZero (_encryptedIds s) (msg_sender e)) (msg_sender e) s in
        let initialWin := FHE_asEbool false in
        let s := set_winStatus (<[msg_sender e := initialWin]> (_winStatus s)) s in
        let s := FHE_allowThis (rd HZero (_winStatus s) (msg_sender e)) s in
        let s := FHE_allow (rd HZero (_winStatus s) (msg_sender e)) (msg_sender e) s in
        let s := if _hasDrawn s
                 then FHE_allow (_encryptedWinnerIndex s) (msg_sender e) s
                 else s in
        Ok (ParticipantRegistered (msg_sender e) participantIndex, s)
    end.

(** The body of [for (uint256 i = 0; i < count; ++i)], with [n] iterations
    left and [hcu] compute units consumed so far in the transaction; an index
    beyond the array is the out-of-bounds panic, and [FHE.eq] reverts when
    its cost would take the transaction past the limit. *)
Fixpoint drawLoop (n : nat) (i : nat) (hcu : Z) (s : state) : result state :=
  match n with
  | O => Ok s
  | S n' =>
      match _participants s !! i with
      | None => Revert (Panic 50)
      | Some participant =>
          if MAX_HCU_PER_TX <? hcu + Z.pos hcuEq then Revert HCUTransactionLimitExceeded
          else
            let isWinner :=
              FHE_eq (_encryptedWinnerIndex s) (FHE_asEuint32 (uint32 (Z.of_nat i))) in
            let s := set_winStatus (<[participant := isWinner]> (_winStatus s)) s in
            let s := FHE_allowThis (rd HZero (_winStatus s) participant) s in
            let s := FHE_allow (rd HZero (_winStatus s) participant) participant s in
            let s := FHE_allow (_encryptedWinnerIndex s) participant s in
            drawLoop n' (S i) (hcu + Z.pos hcuEq) s
      end
  end.

(** The seed of a draw: the hash of the five packed words. *)
Definition randomSeed (e : env) (s : state) : Z :=
  uint256 (keccak256 [blockhash e (block_number e - 1);
                      block_prevrandao e;
                      block_timestamp e;
                      Z.of_nat (length (_participants s));
                      _lastDrawTimestamp s]).

Definition winnerIndex (e : env) (s : state) : Z :=
  uint32 (randomSeed e s mod Z.of_nat (length (_participants s))).

Definition commitment (e : env) (s : state) : Z :=
  keccak256 [randomSeed e s; block_number e; blockhash e (block_number e - 1)].

Definition drawWinner (e : env) (s : state) : result (event * state) :=
  if negb (msg_sender e =? ADMIN_ADDRESS s) then Revert NotAuthorized
  else
    let count := length (_participants s) in
    if Z.of_nat count =? 0 then Revert NoParticipants
    else if block_number e - 1 <? 0 then Revert (Panic 17)
    else
      let seed := randomSeed e s in
      let winner := winnerIndex e s in
      let c := commitment e s in
      let s := set_encryptedWinnerIndex (FHE_asEuint32 winner) s in
      let s := set_lastDrawTimestamp (block_timestamp e) s in
      let s := set_hasDrawn true s in
      let s := FHE_allowThis (_encryptedWinnerIndex s) s in
      match drawLoop count 0 0 s with
      | Revert err => Revert err
      | Ok s => Ok (WinnerDrawn c (Z.of_nat count), s)
      end.

(** *** Views *)

Definition isRegistered (s : state) (participant : Z) : bool :=
  rd false (_registered s) participant.

Definition participantCount (s : state) : Z := Z.of_nat (length (_participants s)).

Definition getEncryptedId (s : state) (participant : Z) : result handle :=
  if negb (rd false (_registered s) participant) then Revert NotRegistered
  else Ok (rd HZero (_encryptedIds s) participant).

Definition getEncryptedWinStatus (s : state) (participant : Z) : result handle :=
  if negb (rd false (_registered s) participant) then Revert NotRegistered
  else Ok (rd HZero (_winStatus s) participant).

Definition getEncryptedWinnerIndex (s : state) : handle := _encryptedWinnerIndex s.
Definition admin (s : state) : Z := ADMIN_ADDRESS s.
Definition maxParticipants (s : state) : Z := MAX_PARTICIPANTS s.
Definition lastDrawTimestamp (s : state) : Z := _lastDrawTimestamp s.

(** *** Transactions *)

Definition run (e : env) (c : call) (s : state) : result (event * state) :=
  match c with
  | Register encryptedIdInput inputProof => register e encryptedIdInput inputProof s
  | DrawWinner => drawWinner e s
  end.

(** A reverted transaction leaves the state as it was. *)
Definition execute (e : env) (c : call) (s : state) : state :=
  match run e c s with
  | Ok (_, s') => s'
  | Revert _ => s
  end.

Definition execute_all (txs : list (env * call)) (s : state) : state :=
  foldl (λ st tx, execute (fst tx) (snd tx) st) s txs.

(** The states a deployment by [deployer] with limit [maxP] can be in. *)
Inductive reachable (deployer : Z) (maxP : Z) : state → Prop :=
| reachable_deploy (e : env) :
    msg_sender e = deployer → 0 ≤ maxP < 2 ^ 256 →
    reachable deployer maxP (constructor e maxP)
| reachable_call (s : state) (e : env) (c : call) :
    reachable deployer maxP s →
    reachable deployer maxP (execute e c s).

End Contract.

(** ** A sample deployment

    A small platform to run the contract on: the contract lives at address 0,
    the hash adds up its words, every input proof is accepted and a
    comparison costs 86,000 compute units. *)
Definition sample_platform : Platform :=
  {| this := 0;
     keccak256 := λ ws, foldr Z.add 0 ws;
     verifyInput := λ _ _ _, true;
     hcuEq := 86000 |}.

(** A transaction from [sender] in block 1 at time [ts]. *)
Definition sample_env (sender : Z) (ts : Z) : env :=
  mkEnv sender 1 ts 0 (λ _, 0).

(** The deployment by account 1 with limit [maxP], followed by one
    registration from each of the accounts 2, 3, ..., n + 1. *)
Fixpoint crowd (maxP : Z) (n : nat) : state :=
  match n with
  | O => @constructor (sample_env 1 0) maxP
  | S k => @execute sample_platform (sample_env (Z.of_nat k + 2) 0) (Register 0 []) (crowd maxP k)
  end.

(** The deployment with limit [2^33] after account 2 registered and the admin
    drew at time 7, followed by one registration from each of the accounts
    3, 4, ..., n + 2. *)
Fixpoint latecomers (n : nat) : state :=
  match n with
  | O => @execute sample_platform (sample_env 1 7) DrawWinner (crowd (2 ^ 33) 1)
  | S k => @execute sample_platform (sample_env (Z.of_nat k + 3) 8) (Register 0 [])
             (latecomers k)
  end.

(** ** The registry invariant

    No address occurs twice in the array, the registered addresses are those
    of the array, and the slot stored for the participant at position [i] is
    [i] cast to [uint32]. *)
Definition registry_wf (s : state) : Prop :=
  NoDup (_participants s) ∧
  (∀ p, rd false (_registered s) p = true ↔ p ∈ _participants s) ∧
  (∀ (i : nat) p, _participants s !! i = Some p → rd 0 (_indices s) p = uint32 (Z.of_nat i)).

(** The same with the slot equal to the position itself. *)
Definition registry_consistent (s : state) : Prop :=
  NoDup (_participants s) ∧
  (∀ p, rd false (_registered s) p = true ↔ p ∈ _participants s) ∧
  (∀ (i : nat) p, _participants s !! i = Some p → rd 0 (_indices s) p = Z.of_nat i).

(** ** The grant invariant

    A grant on an encrypted comparison against the constant [j] is held by the
    contract or by a participant whose position casts to [j]; the status of
    the participant at position [i] is the encryption of false or a
    comparison against [i] cast to [uint32]; the stored winner index is
    uninitialised or a trivial encryption; and the contract and each
    participant hold a grant on that participant's status. *)
Definition grants_wf `{Platform} (s : state) : Prop :=
  (∀ h a, (h, a) ∈ acl s → ∀ l j, h = HEq l (HTrivial Uint32 j) →
     a = this ∨ ∃ i : nat, _participants s !! i = Some a ∧ uint32 (Z.of_nat i) = j) ∧
  (∀ (i : nat) p, _participants s !! i = Some p →
     rd HZero (_winStatus s) p = FHE_asEbool false ∨
     ∃ l, rd HZero (_winStatus s) p = HEq l (HTrivial Uint32 (uint32 (Z.of_nat i)))) ∧
  (_encryptedWinnerIndex s = HZero ∨ ∃ w, _encryptedWinnerIndex s = HTrivial Uint32 w) ∧
  (∀ (i : nat) p, _participants s !! i = Some p →
     (rd HZero (_winStatus s) p, p) ∈ acl s ∧ (rd HZero (_winStatus s) p, this) ∈ acl s).


(** ** The outcome invariant

    Before any draw the winner index is uninitialised, the last draw timestamp
    is zero and every participant's status is the encryption of false.  After
    a draw over the first [n] positions with winner index [w], the status at
    a position below [n] is the comparison of [w] with that position and the
    status at a later position is the encryption of false. *)
Definition outcome_wf (s : state) : Prop :=
  if _hasDrawn s then
    ∃ (w : Z) (n : nat),
      _encryptedWinnerIndex s = FHE_asEuint32 w ∧
      0 ≤ w < Z.of_nat n ∧ w < 2 ^ 32 ∧ (n ≤ length (_participants s))%nat ∧
      ∀ (i : nat) p, _participants s !! i = Some p →
        rd HZero (_winStatus s) p =
          if decide (i < n)%nat
          then FHE_eq (FHE_asEuint32 w) (FHE_asEuint32 (uint32 (Z.of_nat i)))
          else FHE_asEbool false
  else
    _encryptedWinnerIndex s = HZero ∧ _lastDrawTimestamp s = 0 ∧
    ∀ (i : nat) p, _participants s !! i = Some p →
      rd HZero (_winStatus s) p = FHE_asEbool false.


(** ** Basic facts *)

Lemma rd_insert_eq {V : Type} (d : V) (m : gmap Z V) (k : Z) (v : V) :
  rd d (<[k := v]> m) k = v.
Proof. unfold rd. by rewrite lookup_insert_eq. Qed.

Lemma rd_insert_ne {V : Type} (d : V) (m : gmap Z V) (k k' : Z) (v : V) :
  k ≠ k' → rd d (<[k := v]> m) k' = rd d m k'.
Proof. intros Hne. unfold rd. by rewrite lookup_insert_ne. Qed.

Lemma rd_empty {V : Type} (d : V) (k : Z) : rd d (∅ : gmap Z V) k = d.
Proof. unfold rd. by rewrite lookup_empty. Qed.

Lemma uint32_small (x : Z) : 0 ≤ x < 2 ^ 32 → uint32 x = x.
Proof. intros Hx. unfold uint32. by apply Z.mod_small. Qed.

Lemma uint32_range (x : Z) : 0 ≤ uint32 x < 2 ^ 32.
Proof. unfold uint32. apply Z.mod_pos_bound. lia. Qed.

Lemma uint32_le (x : Z) : 0 ≤ x → uint32 x ≤ x.
Proof. intros Hx. unfold uint32. apply Z.mod_le; lia. Qed.

Section Properties.
Context `{Platform}.

(** *** register *)

(** A successful registration, field by field. *)
Lemma register_Ok (e : env) (a : Z) (p : list Byte.byte) (s : state) ev s' :
  register e a p s = Ok (ev, s') →
  rd false (_registered s) (msg_sender e) = false ∧
  Z.of_nat (length (_participants s)) < MAX_PARTICIPANTS s ∧
  verifyInput a (msg_sender e) p = true ∧
  ev = ParticipantRegistered (msg_sender e) (uint32 (Z.of_nat (length (_participants s)))) ∧
  s' = mkState (ADMIN_ADDRESS s) (MAX_PARTICIPANTS s)
         (_participants s ++ [msg_sender e])
         (<[msg_sender e := true]> (_registered s))
         (<[msg_sender e := uint32 (Z.of_nat (length (_participants s)))]> (_indices s))
         (<[msg_sender e := HInput a]> (_encryptedIds s))
         (<[msg_sender e := FHE_asEbool false]> (_winStatus s))
         (_encryptedWinnerIndex s) (_hasDrawn s) (_lastDrawTimestamp s)
         ((if _hasDrawn s then [(_encryptedWinnerIndex s, msg_sender e)] else []) ++
          [(FHE_asEbool false, msg_sender e); (FHE_asEbool false, this);
           (HInput a, msg_sender e); (HInput a, this)] ++ acl s).
Proof.
  unfold register, FHE_fromExternal.
  destruct (rd false (_registered s) (msg_sender e)) eqn:Hreg; [done|].
  destruct (MAX_PARTICIPANTS s <=? _) eqn:Hmax; [done|].
  destruct (verifyInput a (msg_sender e) p) eqn:Hver; [|done].
  intros [= <- <-]. apply Z.leb_gt in Hmax.
  cbn [set_participants set_indices set_registered set_encryptedIds set_winStatus
       FHE_allow FHE_allowThis set_acl _participants _indices _registered _encryptedIds
       _winStatus _hasDrawn acl ADMIN_ADDRESS MAX_PARTICIPANTS _encryptedWinnerIndex
       _lastDrawTimestamp].
  rewrite !rd_insert_eq, length_app. cbn [length].
  replace (Z.of_nat (length (_participants s) + 1) - 1)
    with (Z.of_nat (length (_participants s))) by lia.
  repeat split; try done.
  destruct s as [? ? ? ? ? ? ? ? [] ? ?]; reflexivity.
Qed.

(** When a registration goes through. *)
Lemma register_succeeds (e : env) (a : Z) (p : list Byte.byte) (s : state) :
  rd false (_registered s) (msg_sender e) = false →
  Z.of_nat (length (_participants s)) < MAX_PARTICIPANTS s →
  verifyInput a (msg_sender e) p = true →
  ∃ ev s', register e a p s = Ok (ev, s').
Proof.
  intros Hreg Hmax Hver. unfold register, FHE_fromExternal.
  rewrite Hreg, Hver. apply Z.leb_gt in Hmax. rewrite Hmax. eauto.
Qed.

(** *** drawWinner *)

(** The state in which the loop of [drawWinner] starts. *)
Lemma drawWinner_Ok (e : env) (s : state) ev s' :
  drawWinner e s = Ok (ev, s') →
  msg_sender e = ADMIN_ADDRESS s ∧
  _participants s ≠ [] ∧
  1 ≤ block_number e ∧
  ev = WinnerDrawn (commitment e s) (Z.of_nat (length (_participants s))) ∧
  drawLoop (length (_participants s)) 0 0
    (mkState (ADMIN_ADDRESS s) (MAX_PARTICIPANTS s) (_participants s) (_registered s)
       (_indices s) (_encryptedIds s) (_winStatus s)
       (FHE_asEuint32 (winnerIndex e s)) true (block_timestamp e)
       ((FHE_asEuint32 (winnerIndex e s), this) :: acl s)) = Ok s'.
Proof.
  unfold drawWinner.
  destruct (msg_sender e =? ADMIN_ADDRESS s) eqn:Hadm; [|done]. cbn [negb].
  destruct (Z.of_nat (length (_participants s)) =? 0) eqn:Hcnt; [done|].
  destruct (block_number e - 1 <? 0) eqn:Hnum; [done|].
  destruct (drawLoop _ _ _ _) as [s1|err] eqn:Hloop; [|done].
  intros [= <- <-].
  apply Z.eqb_eq in Hadm. apply Z.eqb_neq in Hcnt. apply Z.ltb_ge in Hnum.
  repeat split; try done; try lia.
  intros Hnil. rewrite Hnil in Hcnt. by apply Hcnt.
Qed.

(** Within the array the loop ends well exactly when the compute units of
    its comparisons fit under the limit, and otherwise reverts for that
    reason. *)
Lemma drawLoop_total (n i : nat) (hcu : Z) (s : state) :
  (i + n ≤ length (_participants s))%nat →
  hcu + Z.of_nat n * Z.pos hcuEq ≤ MAX_HCU_PER_TX →
  ∃ s', drawLoop n i hcu s = Ok s'.
Proof.
  revert i hcu s. induction n as [|n IH]; intros i hcu s Hlen Hfit; [by eexists|].
  cbn [drawLoop].
  destruct (lookup_lt_is_Some_2 (_participants s) i) as [p Hp]; [lia|].
  rewrite Hp. destruct (MAX_HCU_PER_TX <? hcu + Z.pos hcuEq) eqn:Hhcu.
  { apply Z.ltb_lt in Hhcu. nia. }
  apply IH; [cbn; lia|nia].
Qed.

Lemma drawLoop_Ok_fits (n i : nat) (hcu : Z) (s s' : state) :
  drawLoop n i hcu s = Ok s' →
  n = 0%nat ∨ hcu + Z.of_nat n * Z.pos hcuEq ≤ MAX_HCU_PER_TX.
Proof.
  revert i hcu s. induction n as [|n IH]; intros i hcu s; [by left|].
  cbn [drawLoop]. destruct (_participants s !! i) as [p|]; [|done].
  destruct (MAX_HCU_PER_TX <? hcu + Z.pos hcuEq) eqn:Hhcu; [done|].
  apply Z.ltb_ge in Hhcu. intros [->|Hfit]%IH; right; lia.
Qed.

Lemma drawLoop_Revert (n i : nat) (hcu : Z) (s : state) (err : error) :
  (i + n ≤ length (_participants s))%nat →
  drawLoop n i hcu s = Revert err →
  err = HCUTransactionLimitExceeded ∧ MAX_HCU_PER_TX < hcu + Z.of_nat n * Z.pos hcuEq.
Proof.
  revert i hcu s. induction n as [|n IH]; intros i hcu s Hlen; [done|].
  cbn [drawLoop].
  destruct (lookup_lt_is_Some_2 (_participants s) i) as [p Hp]; [lia|].
  rewrite Hp. destruct (MAX_HCU_PER_TX <? hcu + Z.pos hcuEq) eqn:Hhcu.
  { apply Z.ltb_lt in Hhcu. intros [= <-]. split; [done|nia]. }
  intros [-> Hover]%IH; [|cbn; lia]. split; [done|lia].
Qed.

(** What the loop leaves alone. *)
Lemma drawLoop_frame (n i : nat) {hcu : Z} (s s' : state) :
  drawLoop n i hcu s = Ok s' →
  ADMIN_ADDRESS s' = ADMIN_ADDRESS s ∧
  MAX_PARTICIPANTS s' = MAX_PARTICIPANTS s ∧
  _participants s' = _participants s ∧
  _registered s' = _registered s ∧
  _indices s' = _indices s ∧
  _encryptedIds s' = _encryptedIds s ∧
  _encryptedWinnerIndex s' = _encryptedWinnerIndex s ∧
  _hasDrawn s' = _hasDrawn s ∧
  _lastDrawTimestamp s' = _lastDrawTimestamp s.
Proof.
  revert i hcu s. induction n as [|n IH]; intros i hcu s; cbn [drawLoop].
  - by intros [= <-].
  - destruct (_participants s !! i) as [p|]; [|done].
    destruct (MAX_HCU_PER_TX <? hcu + Z.pos hcuEq); [done|].
    intros Hloop. apply IH in Hloop. exact Hloop.
Qed.

(** A participant outside the positions still to visit keeps its status. *)
Lemma drawLoop_untouched (n i : nat) {hcu : Z} (s s' : state) (p : Z) :
  drawLoop n i hcu s = Ok s' →
  (∀ j, (i ≤ j < i + n)%nat → _participants s !! j ≠ Some p) →
  rd HZero (_winStatus s') p = rd HZero (_winStatus s) p.
Proof.
  revert i hcu s. induction n as [|n IH]; intros i hcu s; cbn [drawLoop].
  - by intros [= <-].
  - destruct (_participants s !! i) as [q|] eqn:Hq; [|done].
    destruct (MAX_HCU_PER_TX <? hcu + Z.pos hcuEq); [done|].
    intros Hloop Hout. apply IH in Hloop.
    + rewrite Hloop. cbn. apply rd_insert_ne.
      intros ->. apply (Hout i); [lia|done].
    + intros j Hj. cbn. apply Hout. lia.
Qed.

(** With no duplicates in the array, each visited position ends with the
    encrypted comparison of the winner index with that position. *)
Lemma drawLoop_status (n i : nat) {hcu : Z} (s s' : state) :
  NoDup (_participants s) →
  drawLoop n i hcu s = Ok s' →
  ∀ (j : nat) p, (i ≤ j < i + n)%nat → _participants s !! j = Some p →
    rd HZero (_winStatus s') p =
    FHE_eq (_encryptedWinnerIndex s) (FHE_asEuint32 (uint32 (Z.of_nat j))).
Proof.
  intros Hnd. revert i hcu s Hnd.
  induction n as [|n IH]; intros i hcu s Hnd; cbn [drawLoop].
  - intros _ j p Hj. lia.
  - destruct (_participants s !! i) as [q|] eqn:Hq; [|done].
    destruct (MAX_HCU_PER_TX <? hcu + Z.pos hcuEq); [done|].
    intros Hloop j p Hj Hp.
    destruct (decide (j = i)) as [->|Hne].
    + assert (p = q) as -> by congruence.
      erewrite drawLoop_untouched; [|exact Hloop|].
      * cbn. by rewrite rd_insert_eq.
      * intros k Hk. cbn. intros Hk'.
        pose proof (NoDup_lookup _ _ _ _ Hnd Hq Hk'). lia.
    + eapply (IH (S i)) in Hloop; [exact Hloop|exact Hnd|lia|exact Hp].
Qed.

(** Every grant the loop adds names the contract or the participant of the
    position visited. *)
Lemma drawLoop_acl (n i : nat) {hcu : Z} (s s' : state) (g : handle * Z) :
  drawLoop n i hcu s = Ok s' →
  g ∈ acl s' →
  g ∈ acl s ∨
  ∃ (j : nat) p, (i ≤ j < i + n)%nat ∧ _participants s !! j = Some p ∧
    (g = (FHE_eq (_encryptedWinnerIndex s) (FHE_asEuint32 (uint32 (Z.of_nat j))), this) ∨
     g = (FHE_eq (_encryptedWinnerIndex s) (FHE_asEuint32 (uint32 (Z.of_nat j))), p) ∨
     g = (_encryptedWinnerIndex s, p)).
Proof.
  revert i hcu s. induction n as [|n IH]; intros i hcu s; cbn [drawLoop].
  - intros [= <-]. by left.
  - destruct (_participants s !! i) as [q|] eqn:Hq; [|done].
    destruct (MAX_HCU_PER_TX <? hcu + Z.pos hcuEq); [done|].
    intros Hloop Hg. destruct (IH _ _ _ Hloop Hg) as [Hold|(j & p & Hj & Hp & Hcase)].
    + cbn in Hold. rewrite rd_insert_eq in Hold.
      rewrite !elem_of_cons in Hold.
      destruct Hold as [->|[->|[->|Hold]]]; [| | |by left];
        right; exists i, q; (split; [lia|]); (split; [done|]); auto.
    + right. exists j, p. split; [lia|]. split; [exact Hp|exact Hcase].
Qed.

(** The grants already present stay. *)
Lemma drawLoop_acl_mono (n i : nat) {hcu : Z} (s s' : state) (g : handle * Z) :
  drawLoop n i hcu s = Ok s' → g ∈ acl s → g ∈ acl s'.
Proof.
  revert i hcu s. induction n as [|n IH]; intros i hcu s; cbn [drawLoop].
  - by intros [= <-].
  - destruct (_participants s !! i) as [q|] eqn:Hq; [|done].
    destruct (MAX_HCU_PER_TX <? hcu + Z.pos hcuEq); [done|].
    intros Hloop Hg. eapply IH; [exact Hloop|]. cbn. rewrite !elem_of_cons. auto.
Qed.

Lemma drawWinner_succeeds (e : env) (s : state) :
  msg_sender e = ADMIN_ADDRESS s →
  _participants s ≠ [] →
  1 ≤ block_number e →
  Z.of_nat (length (_participants s)) * Z.pos hcuEq ≤ MAX_HCU_PER_TX →
  ∃ ev s', drawWinner e s = Ok (ev, s').
Proof.
  intros Hadm Hne Hnum Hfit. unfold drawWinner.
  rewrite Hadm, Z.eqb_refl. cbn [negb].
  destruct (Z.of_nat (length (_participants s)) =? 0) eqn:Hcnt.
  { apply Z.eqb_eq in Hcnt. destruct (_participants s); [done|cbn in Hcnt; lia]. }
  destruct (block_number e - 1 <? 0) eqn:Hn; [apply Z.ltb_lt in Hn; lia|].
  edestruct (drawLoop_total (length (_participants s)) 0 0) as [s' Hs'];
    [| |rewrite Hs'; eauto]; cbn; lia.
Qed.

(** *** The registry invariant *)

Lemma registry_wf_constructor (e : env) (maxP : Z) : registry_wf (constructor e maxP).
Proof.
  split; [apply NoDup_nil_2|]. split.
  - intros p. cbn. rewrite rd_empty. split; [done|]. by intros ?%elem_of_nil.
  - intros i p. cbn. by rewrite lookup_nil.
Qed.

Lemma registry_wf_register (e : env) (a : Z) (pf : list Byte.byte) (s : state) ev s' :
  registry_wf s → register e a pf s = Ok (ev, s') → registry_wf s'.
Proof.
  intros (Hnd & Hreg & Hidx) (Hfresh & _ & _ & _ & ->)%register_Ok.
  assert (msg_sender e ∉ _participants s) as Hnotin.
  { intros Hin%Hreg. congruence. }
  split; [|split]; cbn.
  - apply NoDup_app. split; [done|]. split; [|apply NoDup_singleton].
    intros x Hx ->%list_elem_of_singleton. by apply Hnotin.
  - intros p. rewrite elem_of_app, list_elem_of_singleton.
    destruct (decide (msg_sender e = p)) as [<-|Hne].
    + rewrite rd_insert_eq. split; auto.
    + rewrite rd_insert_ne by done. rewrite Hreg. split; [auto|].
      intros [?|?]; [done|congruence].
  - intros i p Hp. apply lookup_app_Some in Hp as [Hp|[Hlen Hp]].
    + rewrite rd_insert_ne; [by apply Hidx|].
      intros Heq. apply Hnotin. rewrite Heq. by eapply list_elem_of_lookup_2.
    + apply list_lookup_singleton_Some in Hp as [Hi <-].
      rewrite rd_insert_eq. f_equal. lia.
Qed.

Lemma registry_wf_drawWinner (e : env) (s : state) ev s' :
  registry_wf s → drawWinner e s = Ok (ev, s') → registry_wf s'.
Proof.
  intros Hwf (_ & _ & _ & _ & Hloop)%drawWinner_Ok.
  apply drawLoop_frame in Hloop as (_ & _ & Hps & Hreg & Hidx & _).
  cbn in Hps, Hreg, Hidx. unfold registry_wf. by rewrite Hps, Hreg, Hidx.
Qed.

Lemma registry_wf_execute (e : env) (c : call) (s : state) :
  registry_wf s → registry_wf (execute e c s).
Proof.
  intros Hwf. unfold execute.
  destruct (run e c s) as [[ev s']|err] eqn:Hrun; [|done].
  destruct c as [a pf|]; cbn in Hrun.
  - by eapply registry_wf_register.
  - by eapply registry_wf_drawWinner.
Qed.

Lemma reachable_registry_wf (deployer maxP : Z) (s : state) :
  reachable deployer maxP s → registry_wf s.
Proof.
  induction 1 as [e _ _|s e c _ IH].
  - apply registry_wf_constructor.
  - by apply registry_wf_execute.
Qed.

(** The position of a registered participant. *)
Lemma registered_position (s : state) (p : Z) :
  registry_wf s → rd false (_registered s) p = true →
  ∃ i : nat, _participants s !! i = Some p.
Proof.
  intros (_ & Hreg & _) Hp%Hreg. by apply list_elem_of_lookup_1.
Qed.

(** Without any assumption on the array: a participant standing at some
    position still to visit ends with the comparison for one such position. *)
Lemma drawLoop_visits (n i : nat) {hcu : Z} (s s' : state) (p : Z) :
  drawLoop n i hcu s = Ok s' →
  (∀ j, (i ≤ j < i + n)%nat → _participants s !! j ≠ Some p) ∨
  (∃ j : nat, (i ≤ j < i + n)%nat ∧ _participants s !! j = Some p ∧
     rd HZero (_winStatus s') p =
     FHE_eq (_encryptedWinnerIndex s) (FHE_asEuint32 (uint32 (Z.of_nat j)))).
Proof.
  revert i hcu s. induction n as [|n IH]; intros i hcu s; cbn [drawLoop].
  - intros _. left. intros j Hj. lia.
  - destruct (_participants s !! i) as [q|] eqn:Hq; [|done].
    destruct (MAX_HCU_PER_TX <? hcu + Z.pos hcuEq); [done|].
    intros Hloop. destruct (IH _ _ _ Hloop) as [Hout|(j & Hj & Hp & Hst)].
    + cbn in Hout. destruct (decide (q = p)) as [->|Hne].
      * right. exists i. split; [lia|]. split; [done|].
        rewrite (drawLoop_untouched _ _ _ _ p Hloop); [|exact Hout].
        cbn. by rewrite rd_insert_eq.
      * left. intros j Hj. destruct (decide (j = i)) as [->|Hji].
        -- rewrite Hq. congruence.
        -- apply Hout. lia.
    + right. exists j. split; [lia|]. split; [exact Hp|exact Hst].
Qed.

(** *** Reverts and immutables *)

(** The ways [drawWinner] reverts, in the order the code meets them. *)
Lemma drawWinner_Revert (e : env) (s : state) (err : error) :
  drawWinner e s = Revert err →
  (err = NotAuthorized ∧ msg_sender e ≠ ADMIN_ADDRESS s) ∨
  (err = NoParticipants ∧ msg_sender e = ADMIN_ADDRESS s ∧ _participants s = []) ∨
  (err = Panic 17 ∧ msg_sender e = ADMIN_ADDRESS s ∧ _participants s ≠ [] ∧
   block_number e < 1) ∨
  (err = HCUTransactionLimitExceeded ∧ msg_sender e = ADMIN_ADDRESS s ∧
   _participants s ≠ [] ∧ 1 ≤ block_number e ∧
   MAX_HCU_PER_TX < Z.of_nat (length (_participants s)) * Z.pos hcuEq).
Proof.
  unfold drawWinner.
  destruct (msg_sender e =? ADMIN_ADDRESS s) eqn:Hadm; cbn [negb].
  2: { apply Z.eqb_neq in Hadm. intros [= <-]. by left. }
  apply Z.eqb_eq in Hadm.
  destruct (Z.of_nat (length (_participants s)) =? 0) eqn:Hcnt.
  { apply Z.eqb_eq in Hcnt. intros [= <-]. right. left.
    repeat split; [done|]. destruct (_participants s); [done|cbn in Hcnt; lia]. }
  apply Z.eqb_neq in Hcnt.
  assert (_participants s ≠ []) as Hne by (intros Hnil; rewrite Hnil in Hcnt; by apply Hcnt).
  destruct (block_number e - 1 <? 0) eqn:Hnum.
  { apply Z.ltb_lt in Hnum. intros [= <-]. right. right. left.
    repeat split; [done..|lia]. }
  apply Z.ltb_ge in Hnum.
  destruct (drawLoop _ _ _ _) as [s'|err'] eqn:Hloop; [done|].
  intros [= <-]. apply drawLoop_Revert in Hloop as [-> Hover]; [|cbn; lia].
  right. right. right. repeat split; [done..|lia|lia].
Qed.

Lemma execute_Revert (e : env) (c : call) (s : state) (err : error) :
  run e c s = Revert err → execute e c s = s.
Proof. intros Hrun. unfold execute. by rewrite Hrun. Qed.

Lemma execute_immutables (e : env) (c : call) (s : state) :
  ADMIN_ADDRESS (execute e c s) = ADMIN_ADDRESS s ∧
  MAX_PARTICIPANTS (execute e c s) = MAX_PARTICIPANTS s.
Proof.
  unfold execute. destruct (run e c s) as [[ev s']|err] eqn:Hrun; [|done].
  destruct c as [a pf|]; cbn in Hrun.
  - apply register_Ok in Hrun as (_ & _ & _ & _ & ->). done.
  - apply drawWinner_Ok in Hrun as (_ & _ & _ & _ & Hloop).
    apply drawLoop_frame in Hloop as (Hadm & Hmax & _). done.
Qed.

Lemma reachable_immutables (deployer maxP : Z) (s : state) :
  reachable deployer maxP s →
  ADMIN_ADDRESS s = deployer ∧ MAX_PARTICIPANTS s = maxP.
Proof.
  induction 1 as [e He _|s e c _ [IHa IHm]]; [done|].
  destruct (execute_immutables e c s) as [-> ->]. done.
Qed.

(** Registered stays registered, and the array only grows at its end. *)
Lemma execute_grows (e : env) (c : call) (s : state) :
  (∀ p, rd false (_registered s) p = true →
        rd false (_registered (execute e c s)) p = true) ∧
  ∃ more, _participants (execute e c s) = _participants s ++ more.
Proof.
  unfold execute. destruct (run e c s) as [[ev s']|err] eqn:Hrun.
  2: { split; [done|]. exists []. by rewrite app_nil_r. }
  destruct c as [a pf|]; cbn in Hrun.
  - apply register_Ok in Hrun as (_ & _ & _ & _ & ->). cbn. split; [|by eexists].
    intros p Hp. destruct (decide (msg_sender e = p)) as [<-|Hne].
    + by rewrite rd_insert_eq.
    + by rewrite rd_insert_ne.
  - apply drawWinner_Ok in Hrun as (_ & _ & _ & _ & Hloop).
    apply drawLoop_frame in Hloop as (_ & _ & Hps & Hreg & _). cbn in Hps, Hreg.
    rewrite Hps, Hreg. split; [done|]. exists []. by rewrite app_nil_r.
Qed.

Lemma execute_all_registered (txs : list (env * call)) (s : state) (p : Z) :
  rd false (_registered s) p = true →
  rd false (_registered (execute_all txs s)) p = true.
Proof.
  revert s. induction txs as [|[e c] txs IH]; intros s Hp; [done|].
  cbn. apply IH. by apply execute_grows.
Qed.

(** ** The claims *)

(** C4: in every state a deployment by [deployer] can reach, [admin()] returns
    [deployer]; [drawWinner] reverts with [NotAuthorized] exactly when the
    caller is not [deployer], and that transaction leaves the state as it
    was. *)
Theorem drawWinner_only_admin (deployer maxP : Z) (s : state) (e : env) :
  reachable deployer maxP s →
  admin s = deployer ∧
  (drawWinner e s = Revert NotAuthorized ↔ msg_sender e ≠ deployer) ∧
  (drawWinner e s = Revert NotAuthorized → execute e DrawWinner s = s).
Proof.
  intros [Hadm _]%reachable_immutables. unfold admin. split; [done|]. split.
  - split.
    + intros [(_ & Hne)|[(? & _)|[(? & _)|(? & _)]]]%drawWinner_Revert; congruence.
    + intros Hne. unfold drawWinner.
      destruct (msg_sender e =? ADMIN_ADDRESS s) eqn:Heq; [|done].
      apply Z.eqb_eq in Heq. congruence.
  - apply (execute_Revert e DrawWinner).
Qed.


(** C6 (as amended): [drawWinner] reverts with [NoParticipants] exactly when
    the caller is the admin and the participant list is empty; whenever
    [drawWinner] reverts the state after the transaction is the state before,
    so the encrypted winner index, the drawn flag, the last draw timestamp and
    every win status are unchanged; and when it succeeds every position of
    the array has been visited. *)
Theorem drawWinner_no_participants (e : env) (s : state) :
  (drawWinner e s = Revert NoParticipants ↔
     msg_sender e = ADMIN_ADDRESS s ∧ _participants s = []) ∧
  (∀ err, drawWinner e s = Revert err →
     execute e DrawWinner s = s ∧
     _encryptedWinnerIndex (execute e DrawWinner s) = _encryptedWinnerIndex s ∧
     _hasDrawn (execute e DrawWinner s) = _hasDrawn s ∧
     _lastDrawTimestamp (execute e DrawWinner s) = _lastDrawTimestamp s ∧
     ∀ p, rd HZero (_winStatus (execute e DrawWinner s)) p = rd HZero (_winStatus s) p) ∧
  (∀ ev s', drawWinner e s = Ok (ev, s') →
     ∀ (i : nat) p, _participants s !! i = Some p →
       ∃ j : nat, _participants s !! j = Some p ∧
         rd HZero (_winStatus s') p =
         FHE_eq (_encryptedWinnerIndex s') (FHE_asEuint32 (uint32 (Z.of_nat j)))).
Proof.
  split; [|split].
  - split.
    + intros [(? & _)|[(_ & Hadm & Hnil)|[(? & _)|(? & _)]]]%drawWinner_Revert; done.
    + intros [Hadm Hnil]. unfold drawWinner.
      by rewrite Hadm, Z.eqb_refl, Hnil.
  - intros err Hrev.
    rewrite (execute_Revert e DrawWinner s err Hrev). done.
  - intros ev s' (_ & _ & _ & _ & Hloop)%drawWinner_Ok i p Hp.
    pose proof (drawLoop_frame _ _ _ _ Hloop) as (_ & _ & _ & _ & _ & _ & Hw & _).
    rewrite Hw. clear Hw. cbn [_encryptedWinnerIndex].
    destruct (drawLoop_visits _ _ _ _ p Hloop) as [Hout|(j & _ & Hj & Hst)].
    + exfalso. apply (Hout i); [|exact Hp].
      apply lookup_lt_Some in Hp. cbn in *. lia.
    + exists j. split; [exact Hj|exact Hst].
Qed.


(** C7: [drawWinner] is a function of the state and the block environment.
    With the previous block hash, prevrandao and timestamp equal, two
    executions with the same participant count and last draw timestamp
    compute the same seed and winner index; with the block number and the
    caller equal as well, executions from the same state produce the same
    commitment, the same result and the same state afterwards. *)
Theorem drawWinner_deterministic (e1 e2 : env) (s1 s2 : state) :
  blockhash e1 (block_number e1 - 1) = blockhash e2 (block_number e2 - 1) →
  block_prevrandao e1 = block_prevrandao e2 →
  block_timestamp e1 = block_timestamp e2 →
  (length (_participants s1) = length (_participants s2) →
   _lastDrawTimestamp s1 = _lastDrawTimestamp s2 →
   randomSeed e1 s1 = randomSeed e2 s2 ∧ winnerIndex e1 s1 = winnerIndex e2 s2) ∧
  (block_number e1 = block_number e2 → msg_sender e1 = msg_sender e2 → s1 = s2 →
   commitment e1 s1 = commitment e2 s2 ∧
   drawWinner e1 s1 = drawWinner e2 s2 ∧
   execute e1 DrawWinner s1 = execute e2 DrawWinner s2).
Proof.
  intros Hhash Hrand Htime.
  assert (∀ s s', length (_participants s) = length (_participants s') →
                  _lastDrawTimestamp s = _lastDrawTimestamp s' →
                  randomSeed e1 s = randomSeed e2 s') as Hseed.
  { intros s s' Hlen Hts. unfold randomSeed. by rewrite Hhash, Hrand, Htime, Hlen, Hts. }
  split.
  - intros Hlen Hts. split; [by apply Hseed|].
    unfold winnerIndex. by rewrite (Hseed s1 s2 Hlen Hts), Hlen.
  - intros Hnum Hsender <-.
    assert (commitment e1 s1 = commitment e2 s1) as Hcom.
    { unfold commitment. by rewrite (Hseed s1 s1), Hhash, Hnum. }
    assert (drawWinner e1 s1 = drawWinner e2 s1) as Hdraw.
    { unfold drawWinner, winnerIndex.
      by rewrite Hcom, (Hseed s1 s1), Hsender, Hnum, Htime. }
    split; [done|]. split; [done|].
    unfold execute. cbn [run]. by rewrite Hdraw.
Qed.

Lemma execute_within_limit (e : env) (c : call) (s : state) :
  Z.of_nat (length (_participants s)) ≤ MAX_PARTICIPANTS s →
  Z.of_nat (length (_participants (execute e c s))) ≤ MAX_PARTICIPANTS (execute e c s).
Proof.
  intros Hle. unfold execute.
  destruct (run e c s) as [[ev s']|err] eqn:Hrun; [|done].
  destruct c as [a pf|]; cbn in Hrun.
  - apply register_Ok in Hrun as (_ & Hlt & _ & _ & ->). cbn.
    rewrite length_app. cbn. lia.
  - apply drawWinner_Ok in Hrun as (_ & _ & _ & _ & Hloop).
    apply drawLoop_frame in Hloop as (_ & Hmax & Hps & _). cbn in Hmax, Hps.
    by rewrite Hmax, Hps.
Qed.

(** C8 (as amended): in every reachable state [maxParticipants()] is the
    constructor argument and [participantCount()] is at most it; a call to
    [register] from an address that is not yet registered, made when the count
    has reached the limit, reverts with the message "Maximum participants
    reached" and leaves the state as it was. *)
Theorem participants_within_limit (deployer maxP : Z) (s : state) :
  reachable deployer maxP s →
  maxParticipants s = maxP ∧
  participantCount s ≤ maxParticipants s ∧
  ∀ e a pf,
    participantCount s = maxParticipants s →
    isRegistered s (msg_sender e) = false →
    register e a pf s = Revert (Error "Maximum participants reached") ∧
    execute e (Register a pf) s = s.
Proof.
  intros Hreach. unfold maxParticipants, participantCount, isRegistered.
  split; [by apply (reachable_immutables deployer maxP)|]. split.
  - induction Hreach as [e _ Hm|s e c _ IH]; [cbn; lia|].
    by apply execute_within_limit.
  - intros e a pf Hfull Hfresh.
    assert (register e a pf s = Revert (Error "Maximum participants reached")) as Hrev.
    { unfold register. rewrite Hfresh, Hfull, Z.leb_refl. done. }
    split; [done|]. by apply (execute_Revert e (Register a pf) s _ Hrev).
Qed.

(** C3 (as amended): the contract has one drawn flag and no phase lock.  The
    flag is false at deployment, no transaction clears it, a successful draw
    sets it and a successful registration keeps it; neither [register] nor
    [drawWinner] consults it to accept or reject a call: whether [register]
    succeeds or reverts, and with which error, is the same whatever the flag,
    and the whole result of [drawWinner] is the same whatever the flag. *)
Theorem draw_flag_only_rises (e : env) (s : state) :
  (∀ maxP, _hasDrawn (constructor e maxP) = false) ∧
  (∀ c, _hasDrawn s = true → _hasDrawn (execute e c s) = true) ∧
  (∀ ev s', drawWinner e s = Ok (ev, s') → _hasDrawn s' = true) ∧
  (∀ a pf ev s', register e a pf s = Ok (ev, s') → _hasDrawn s' = _hasDrawn s) ∧
  (∀ a pf b,
     ((∃ ev s', register e a pf (set_hasDrawn b s) = Ok (ev, s')) ↔
      (∃ ev s', register e a pf s = Ok (ev, s'))) ∧
     (∀ err, register e a pf (set_hasDrawn b s) = Revert err ↔
             register e a pf s = Revert err)) ∧
  (∀ b, drawWinner e (set_hasDrawn b s) = drawWinner e s).
Proof.
  assert (∀ ev s', drawWinner e s = Ok (ev, s') → _hasDrawn s' = true) as Hdraw.
  { intros ev s' (_ & _ & _ & _ & Hloop)%drawWinner_Ok.
    by apply drawLoop_frame in Hloop as (_ & _ & _ & _ & _ & _ & _ & -> & _). }
  assert (∀ a pf ev s', register e a pf s = Ok (ev, s') → _hasDrawn s' = _hasDrawn s) as Hreg.
  { by intros a pf ev s' (_ & _ & _ & _ & ->)%register_Ok. }
  split; [done|]. split; [|split; [done|split; [done|split]]].
  - intros c Hflag. unfold execute.
    destruct (run e c s) as [[ev s']|err] eqn:Hrun; [|done].
    destruct c as [a pf|]; cbn in Hrun.
    + by rewrite (Hreg _ _ _ _ Hrun).
    + by apply (Hdraw ev).
  - intros a pf b. unfold register, FHE_fromExternal.
    cbn [set_hasDrawn _registered _participants MAX_PARTICIPANTS].
    destruct (rd false (_registered s) (msg_sender e)); [split; [split; intros (? & ? & [=])|done]|].
    destruct (MAX_PARTICIPANTS s <=? _); [split; [split; intros (? & ? & [=])|done]|].
    destruct (verifyInput a (msg_sender e) pf); [|split; [split; intros (? & ? & [=])|done]].
    split; [split; intros _; by eexists _, _|].
    intros err. split; intros [=].
  - intros b. unfold drawWinner, commitment, winnerIndex, randomSeed.
    destruct s. reflexivity.
Qed.

(** Every transaction preserves the registry invariant in which the stored
    slot of the participant at position [i] is [i] cast to [uint32]: no address occurs twice, [isRegistered] holds exactly for the
    addresses of the array, and the slot is [i mod 2^32]; whenever the array
    has at most [2^32] entries the slot is the position itself.  The
    [ParticipantRegistered] event names the caller, who now stands at the end
    of the array, and carries that position cast to [uint32]. *)
Theorem registry_wf_preserved (e : env) (c : call) (s : state) :
  registry_wf s →
  registry_wf (execute e c s) ∧
  (Z.of_nat (length (_participants (execute e c s))) ≤ 2 ^ 32 →
   registry_consistent (execute e c s)) ∧
  (∀ who idx s', run e c s = Ok (ParticipantRegistered who idx, s') →
     _participants s' !! length (_participants s) = Some who ∧
     idx = uint32 (Z.of_nat (length (_participants s)))).
Proof.
  intros Hwf. pose proof (registry_wf_execute e c s Hwf) as Hwf'.
  split; [done|]. split.
  - intros Hlen. destruct Hwf' as (Hnd & Hreg & Hidx).
    split; [done|]. split; [done|].
    intros i p Hp. rewrite (Hidx i p Hp). apply uint32_small.
    apply lookup_lt_Some in Hp. lia.
  - intros who idx s' Hrun. destruct c as [a pf|]; cbn in Hrun.
    + apply register_Ok in Hrun as (_ & _ & _ & [= -> ->] & ->). cbn.
      split; [|done]. by rewrite lookup_app_r, Nat.sub_diag.
    + apply drawWinner_Ok in Hrun as (_ & _ & _ & ? & _). done.
Qed.


(** A registration by anyone leaves a registered participant's status, the
    stored winner index and the grants already made in place. *)
Lemma execute_register_keeps (e : env) (a : Z) (pf : list Byte.byte) (s : state) (p : Z) :
  rd false (_registered s) p = true →
  rd HZero (_winStatus (execute e (Register a pf) s)) p = rd HZero (_winStatus s) p ∧
  _encryptedWinnerIndex (execute e (Register a pf) s) = _encryptedWinnerIndex s ∧
  (∀ g, g ∈ acl s → g ∈ acl (execute e (Register a pf) s)).
Proof.
  intros Hp. unfold execute. cbn [run].
  destruct (register e a pf s) as [[ev s']|err] eqn:Hrun; [|done].
  apply register_Ok in Hrun as (Hfresh & _ & _ & _ & ->). cbn.
  split; [|split; [done|]].
  - apply rd_insert_ne. intros Heq. rewrite Heq in Hfresh. congruence.
  - intros g Hg. destruct (_hasDrawn s); cbn; rewrite !elem_of_cons; auto 10.
Qed.

(** C9: a participant who registers once a draw has occurred is granted
    decrypt access to the stored encrypted winner index, which the
    registration does not change; their win status is the encryption of
    false, and through any further registrations (until the next draw) it
    stays so and decrypts to false, whatever slot they were assigned, while
    the stored winner index and their grant on it stay as well. *)
Theorem late_registration_not_winner
    (e : env) (a : Z) (pf : list Byte.byte) (s : state) ev s' :
  _hasDrawn s = true →
  register e a pf s = Ok (ev, s') →
  _encryptedWinnerIndex s' = _encryptedWinnerIndex s ∧
  (_encryptedWinnerIndex s, msg_sender e) ∈ acl s' ∧
  ∀ txs, Forall (λ tx, ∃ a2 pf2, snd tx = Register a2 pf2) txs →
    getEncryptedWinStatus (execute_all txs s') (msg_sender e) = Ok (FHE_asEbool false) ∧
    decrypt (FHE_asEbool false) = Some 0 ∧
    _encryptedWinnerIndex (execute_all txs s') = _encryptedWinnerIndex s ∧
    (_encryptedWinnerIndex s, msg_sender e) ∈ acl (execute_all txs s').
Proof.
  intros Hdrawn (_ & _ & _ & _ & ->)%register_Ok. rewrite Hdrawn.
  split; [done|]. split; [cbn; apply list_elem_of_here|].
  intros txs Hregs.
  match goal with |- context [execute_all txs ?st] => set (s1 := st) end.
  assert (rd false (_registered s1) (msg_sender e) = true ∧
          rd HZero (_winStatus s1) (msg_sender e) = FHE_asEbool false ∧
          _encryptedWinnerIndex s1 = _encryptedWinnerIndex s ∧
          (_encryptedWinnerIndex s, msg_sender e) ∈ acl s1) as Hs1.
  { subst s1. cbn. rewrite !rd_insert_eq. repeat split. apply list_elem_of_here. }
  clearbody s1. revert s1 Hs1.
  induction Hregs as [|[e2 c2] txs (a2 & pf2 & Hc) _ IH]; intros s1 (Hr & Hw & Hi & Hg).
  - cbn. unfold getEncryptedWinStatus. rewrite Hr, Hw. done.
  - cbn in Hc. subst c2. cbn [execute_all foldl fst snd]. apply IH.
    destruct (execute_register_keeps e2 a2 pf2 s1 (msg_sender e) Hr) as (Hw' & Hi' & Hg').
    split; [by apply execute_grows|]. split; [congruence|]. split; [congruence|].
    by apply Hg'.
Qed.

(** C1: in a reachable state, whatever the length [n] of the participant
    list, a successful [drawWinner] (the list is then non-empty and the caller
    the admin) computes the winner index [w] as the seed modulo [n], so
    [w < n]; it stores the encryption of [w], sets the win status of the
    participant at every position [i < n] to the encrypted equality of the
    winner index with [i], which decrypts to true exactly when [w = i]; hence
    exactly one registered participant's status decrypts to true.  (A draw
    that succeeds has fitted its comparisons under the compute-unit limit, so
    the casts to [uint32] lose nothing.) *)
Theorem drawWinner_selects_one (deployer maxP : Z) (e : env) (s : state) ev s' :
  reachable deployer maxP s →
  drawWinner e s = Ok (ev, s') →
  winnerIndex e s = randomSeed e s mod participantCount s ∧
  0 ≤ winnerIndex e s < participantCount s ∧
  getEncryptedWinnerIndex s' = FHE_asEuint32 (winnerIndex e s) ∧
  decrypt (getEncryptedWinnerIndex s') = Some (winnerIndex e s) ∧
  (∀ (i : nat) p, _participants s !! i = Some p →
     getEncryptedWinStatus s' p =
       Ok (FHE_eq (FHE_asEuint32 (winnerIndex e s)) (FHE_asEuint32 (Z.of_nat i))) ∧
     decrypt (rd HZero (_winStatus s') p) =
       Some (if winnerIndex e s =? Z.of_nat i then 1 else 0)) ∧
  (∃ p, isRegistered s' p = true ∧
        decrypt (rd HZero (_winStatus s') p) = Some 1 ∧
        ∀ q, isRegistered s' q = true →
             decrypt (rd HZero (_winStatus s') q) = Some 1 → q = p).
Proof.
  intros Hreach Hok.
  pose proof (reachable_registry_wf _ _ _ Hreach) as (Hnd & Hreg & _).
  apply drawWinner_Ok in Hok as (_ & Hne & _ & _ & Hloop).
  assert (Z.of_nat (length (_participants s)) ≤ 2 ^ 32) as Hlen.
  { pose proof (Pos2Z.is_pos hcuEq).
    destruct (drawLoop_Ok_fits _ _ _ _ _ Hloop) as [->|Hfit]; [done|].
    unfold MAX_HCU_PER_TX in Hfit. nia. }
  pose proof (drawLoop_frame _ _ _ _ Hloop) as (_ & _ & Hps & Hregs & _ & _ & Hw & _).
  cbn in Hps, Hregs, Hw.
  unfold participantCount, getEncryptedWinnerIndex, getEncryptedWinStatus, isRegistered.
  set (n := Z.of_nat (length (_participants s))) in *.
  assert (0 < n) as Hpos.
  { subst n. destruct (_participants s); [done|cbn; lia]. }
  pose proof (Z.mod_pos_bound (randomSeed e s) n Hpos) as Hmod.
  assert (winnerIndex e s = randomSeed e s mod n) as Hwin.
  { unfold winnerIndex. fold n. apply uint32_small. lia. }
  assert (∀ (i : nat) p, _participants s !! i = Some p →
     rd HZero (_winStatus s') p =
       FHE_eq (FHE_asEuint32 (winnerIndex e s)) (FHE_asEuint32 (Z.of_nat i)) ∧
     decrypt (rd HZero (_winStatus s') p) =
       Some (if winnerIndex e s =? Z.of_nat i then 1 else 0)) as Hstatus.
  { intros i p Hp. pose proof (lookup_lt_Some _ _ _ Hp) as Hi.
    pose proof (λ Hn, drawLoop_status _ _ _ _ Hn Hloop i p) as Hst.
    cbn [_participants _encryptedWinnerIndex] in Hst.
    rewrite (Hst Hnd); [|lia|exact Hp].
    rewrite (uint32_small (Z.of_nat i)) by lia.
    split; [done|]. cbn.
    rewrite (Z.mod_small (winnerIndex e s)) by lia.
    rewrite (Z.mod_small (Z.of_nat i)) by lia. done. }
  split; [done|]. split; [lia|]. split; [done|]. split.
  { rewrite Hw. cbn. f_equal. apply Z.mod_small. lia. }
  split.
  { intros i p Hp. destruct (Hstatus i p Hp) as [Hst Hdec]. split; [|done].
    rewrite Hregs. assert (rd false (_registered s) p = true) as ->.
    { apply Hreg. by eapply list_elem_of_lookup_2. }
    cbn. by rewrite Hst. }
  destruct (lookup_lt_is_Some_2 (_participants s) (Z.to_nat (winnerIndex e s)))
    as [p Hp]; [lia|].
  exists p. rewrite Hregs. split.
  { apply Hreg. by eapply list_elem_of_lookup_2. }
  split.
  { destruct (Hstatus _ _ Hp) as [_ ->]. rewrite Z2Nat.id by lia. by rewrite Z.eqb_refl. }
  intros q Hq Hdec. apply Hreg, list_elem_of_lookup_1 in Hq as [j Hj].
  destruct (Hstatus _ _ Hj) as [_ Hdj]. rewrite Hdj in Hdec.
  destruct (winnerIndex e s =? Z.of_nat j) eqn:Heq; [|done].
  apply Z.eqb_eq in Heq. rewrite Heq, Nat2Z.id in Hp. congruence.
Qed.


(** *** The grant invariant *)

(** The loop grants every visited participant, and the contract, the
    comparison for that position. *)
Lemma drawLoop_grants (n i : nat) {hcu : Z} (s s' : state) :
  drawLoop n i hcu s = Ok s' →
  ∀ (j : nat) p, (i ≤ j < i + n)%nat → _participants s !! j = Some p →
    (FHE_eq (_encryptedWinnerIndex s) (FHE_asEuint32 (uint32 (Z.of_nat j))), p) ∈ acl s' ∧
    (FHE_eq (_encryptedWinnerIndex s) (FHE_asEuint32 (uint32 (Z.of_nat j))), this) ∈ acl s' ∧
    (_encryptedWinnerIndex s, p) ∈ acl s'.
Proof.
  revert i hcu s. induction n as [|n IH]; intros i hcu s; cbn [drawLoop].
  - intros _ j p Hj. lia.
  - destruct (_participants s !! i) as [q|] eqn:Hq; [|done].
    destruct (MAX_HCU_PER_TX <? hcu + Z.pos hcuEq); [done|].
    intros Hloop j p Hj Hp. destruct (decide (j = i)) as [->|Hne].
    + assert (p = q) as -> by congruence.
      repeat split; eapply drawLoop_acl_mono; try exact Hloop;
        cbn; rewrite ?rd_insert_eq, !elem_of_cons; auto.
    + eapply (IH (S i)) in Hloop; [exact Hloop|lia|exact Hp].
Qed.

Lemma grants_wf_constructor (e : env) (maxP : Z) : grants_wf (constructor e maxP).
Proof.
  split; [|split; [|split]]; cbn.
  - intros h a ?%elem_of_nil. done.
  - intros i p. by rewrite lookup_nil.
  - by left.
  - intros i p. by rewrite lookup_nil.
Qed.

Lemma grants_wf_register (e : env) (a : Z) (pf : list Byte.byte) (s : state) ev s' :
  registry_wf s → grants_wf s → register e a pf s = Ok (ev, s') → grants_wf s'.
Proof.
  intros (_ & Hreg & _) (G1 & G2 & G3 & G4) (Hfresh & _ & _ & _ & ->)%register_Ok.
  assert (msg_sender e ∉ _participants s) as Hnotin.
  { intros Hin%Hreg. congruence. }
  assert (∀ (i : nat) p, _participants s !! i = Some p → msg_sender e ≠ p) as Hother.
  { intros i p Hp Heq. apply Hnotin. rewrite Heq. by eapply list_elem_of_lookup_2. }
  split; [|split; [|split]]; cbn.
  - intros h b Hin l j ->.
    assert ((HEq l (HTrivial Uint32 j), b) ∈ acl s) as Hold.
    { destruct (_hasDrawn s); cbn in Hin; rewrite !elem_of_cons in Hin.
      - destruct Hin as [[= Hw _]|[[=]|[[=]|[[=]|[[=]|?]]]]]; [|done].
        destruct G3 as [G3|[w G3]]; congruence.
      - destruct Hin as [[=]|[[=]|[[=]|[[=]|?]]]]. done. }
    destruct (G1 _ _ Hold l j eq_refl) as [?|(i & Hi & Hj)]; [by left|].
    right. exists i. split; [|done]. by apply lookup_app_l_Some.
  - intros i p Hp. apply lookup_app_Some in Hp as [Hp|[_ Hp]].
    + rewrite rd_insert_ne by (by eapply Hother). by apply (G2 i).
    + apply list_lookup_singleton_Some in Hp as [_ <-]. rewrite rd_insert_eq. by left.
  - exact G3.
  - intros i p Hp. apply lookup_app_Some in Hp as [Hp|[_ Hp]].
    + rewrite rd_insert_ne by (by eapply Hother).
      destruct (G4 i p Hp) as [Hown Hthis].
      destruct (_hasDrawn s); cbn; rewrite !elem_of_cons; auto 10.
    + apply list_lookup_singleton_Some in Hp as [_ <-]. rewrite rd_insert_eq.
      destruct (_hasDrawn s); cbn; rewrite !elem_of_cons; auto 10.
Qed.

Lemma grants_wf_drawWinner (e : env) (s : state) ev s' :
  registry_wf s → grants_wf s → drawWinner e s = Ok (ev, s') → grants_wf s'.
Proof.
  intros (Hnd & _ & _) (G1 & G2 & G3 & G4) (_ & _ & _ & _ & Hloop)%drawWinner_Ok.
  pose proof (drawLoop_frame _ _ _ _ Hloop) as (_ & _ & Hps & _ & _ & _ & Hw & _).
  pose proof (λ Hn, drawLoop_status _ _ _ _ Hn Hloop) as Hst.
  pose proof (drawLoop_grants _ _ _ _ Hloop) as Hgr.
  pose proof (λ g, drawLoop_acl _ _ _ _ g Hloop) as Hacl.
  cbn [_participants _encryptedWinnerIndex acl] in Hps, Hw, Hst, Hgr, Hacl.
  specialize (Hst Hnd).
  assert (∀ (i : nat) p, _participants s !! i = Some p →
            (0 ≤ i < 0 + length (_participants s))%nat) as Hin.
  { intros i p Hp%lookup_lt_Some. lia. }
  split; [|split; [|split]]; rewrite ?Hps.
  - intros h b Hg l j ->. destruct (Hacl _ Hg) as [Hold|(k & p & _ & Hp & Hcase)].
    + apply elem_of_cons in Hold as [[=]|Hold]. by apply (G1 _ _ Hold l j).
    + destruct Hcase as [[= _ Hj Hb]|[[= _ Hj Hb]|[=]]]; [by left|].
      right. exists k. by rewrite Hb, Hj.
  - intros i p Hp. right. rewrite (Hst i p (Hin i p Hp) Hp). by eexists.
  - right. rewrite Hw. by eexists.
  - intros i p Hp. rewrite (Hst i p (Hin i p Hp) Hp).
    destruct (Hgr i p (Hin i p Hp) Hp) as (? & ? & _). done.
Qed.

Lemma reachable_grants_wf (deployer maxP : Z) (s : state) :
  reachable deployer maxP s → grants_wf s.
Proof.
  induction 1 as [e _ _|s e c Hreach IH].
  - apply grants_wf_constructor.
  - pose proof (reachable_registry_wf _ _ _ Hreach) as Hwf. unfold execute.
    destruct (run e c s) as [[ev s']|err] eqn:Hrun; [|done].
    destruct c as [a pf|]; cbn in Hrun.
    + by eapply grants_wf_register.
    + by eapply grants_wf_drawWinner.
Qed.



(** *** The stored winner index *)

(** Once a draw has occurred the stored winner index is the encryption of a
    position of the array. *)
Lemma reachable_winner_below (deployer maxP : Z) (s : state) :
  reachable deployer maxP s →
  _hasDrawn s = true →
  ∃ w, _encryptedWinnerIndex s = FHE_asEuint32 w ∧
       0 ≤ w < Z.of_nat (length (_participants s)).
Proof.
  induction 1 as [e _ _|s e c _ IH]; [done|].
  unfold execute. destruct (run e c s) as [[ev s']|err] eqn:Hrun; [|done].
  destruct c as [a pf|]; cbn in Hrun.
  - apply register_Ok in Hrun as (_ & _ & _ & _ & ->). cbn.
    intros (w & Hw & Hlt)%IH. exists w. split; [done|].
    rewrite length_app. cbn. lia.
  - intros _. apply drawWinner_Ok in Hrun as (_ & Hne & _ & _ & Hloop).
    apply drawLoop_frame in Hloop as (_ & _ & -> & _ & _ & _ & -> & _). cbn.
    exists (winnerIndex e s). split; [done|].
    assert (0 < Z.of_nat (length (_participants s))) as Hpos.
    { destruct (_participants s); [done|cbn; lia]. }
    pose proof (Z.mod_pos_bound (randomSeed e s) _ Hpos) as Hmod.
    pose proof (uint32_range (randomSeed e s mod Z.of_nat (length (_participants s)))).
    pose proof (uint32_le (randomSeed e s mod Z.of_nat (length (_participants s)))).
    unfold winnerIndex. lia.
Qed.

(** Hence a late registrant standing below position [2^32] is given a slot
    above the stored winner index. *)
Lemma late_slot_above_winner_index
    (deployer maxP : Z) (e : env) (a : Z) (pf : list Byte.byte) (s : state)
    (who idx : Z) (s' : state) :
  reachable deployer maxP s →
  _hasDrawn s = true →
  Z.of_nat (length (_participants s)) < 2 ^ 32 →
  register e a pf s = Ok (ParticipantRegistered who idx, s') →
  ∃ w, decrypt (getEncryptedWinnerIndex s') = Some w ∧ w < idx.
Proof.
  intros Hreach Hdrawn Hlen (_ & _ & _ & [= -> ->] & ->)%register_Ok.
  destruct (reachable_winner_below _ _ _ Hreach Hdrawn) as (w & Hw & Hlt).
  exists w. unfold getEncryptedWinnerIndex. cbn. rewrite Hw. cbn.
  rewrite Z.mod_small, uint32_small by lia. split; [done|lia].
Qed.


(** ** Further properties of the contract *)

(** *** What a transaction leaves in place *)

Lemma execute_acl_mono (e : env) (c : call) (s : state) (g : handle * Z) :
  g ∈ acl s → g ∈ acl (execute e c s).
Proof.
  intros Hg. unfold execute.
  destruct (run e c s) as [[ev s']|err] eqn:Hrun; [|done].
  destruct c as [a pf|]; cbn in Hrun.
  - apply register_Ok in Hrun as (_ & _ & _ & _ & ->). cbn.
    destruct (_hasDrawn s); cbn; rewrite !elem_of_cons; auto 10.
  - apply drawWinner_Ok in Hrun as (_ & _ & _ & _ & Hloop).
    eapply drawLoop_acl_mono; [exact Hloop|]. cbn. by apply list_elem_of_further.
Qed.

(** X1: no transaction revokes a decrypt grant: a grant present in the
    access-control list is still there after any sequence of transactions, so
    a participant keeps access to the statuses and winner indices of earlier
    draws. *)
Theorem grants_never_revoked (txs : list (env * call)) (s : state) (g : handle * Z) :
  g ∈ acl s → g ∈ acl (execute_all txs s).
Proof.
  revert s. induction txs as [|[e c] txs IH]; intros s Hg; [done|].
  cbn. apply IH. by apply execute_acl_mono.
Qed.

(** X2: the participant array is append-only: through any sequence of
    transactions a participant keeps the position they stand at and the
    participant count never decreases. *)
Theorem positions_stable (txs : list (env * call)) (s : state) (i : nat) (p : Z) :
  _participants s !! i = Some p →
  _participants (execute_all txs s) !! i = Some p ∧
  participantCount s ≤ participantCount (execute_all txs s).
Proof.
  unfold participantCount.
  revert s. induction txs as [|[e c] txs IH]; intros s Hp; [split; [done|cbn; lia]|].
  cbn [execute_all foldl fst snd].
  destruct (execute_grows e c s) as [_ [more Hmore]].
  destruct (IH (execute e c s)) as [Hpos Hcnt].
  { rewrite Hmore. by apply lookup_app_l_Some. }
  split; [exact Hpos|].
  assert (length (_participants s) ≤ length (_participants (execute e c s)))%nat as Hlen.
  { rewrite Hmore, length_app. lia. }
  unfold execute_all in Hcnt. lia.
Qed.

(** The entries of a registered participant that no transaction rewrites. *)
Lemma execute_keeps_id (e : env) (c : call) (s : state) (p : Z) :
  rd false (_registered s) p = true →
  rd HZero (_encryptedIds (execute e c s)) p = rd HZero (_encryptedIds s) p ∧
  rd 0 (_indices (execute e c s)) p = rd 0 (_indices s) p.
Proof.
  intros Hp. unfold execute.
  destruct (run e c s) as [[ev s']|err] eqn:Hrun; [|done].
  destruct c as [a pf|]; cbn in Hrun.
  - apply register_Ok in Hrun as (Hfresh & _ & _ & _ & ->). cbn.
    assert (msg_sender e ≠ p) as Hne by (intros Heq; rewrite Heq in Hfresh; congruence).
    by rewrite !rd_insert_ne.
  - apply drawWinner_Ok in Hrun as (_ & _ & _ & _ & Hloop).
    apply drawLoop_frame in Hloop as (_ & _ & _ & _ & -> & -> & _). done.
Qed.

(** X3: [getEncryptedId] reverts with [NotRegistered] exactly for an address
    that is not registered; after a successful [register] with input handle
    [a], and after any further transactions, it returns that verified input's
    handle for the caller. *)
Theorem encrypted_id_round_trip
    (e : env) (a : Z) (pf : list Byte.byte) (s : state) ev s' :
  register e a pf s = Ok (ev, s') →
  getEncryptedId s (msg_sender e) = Revert NotRegistered ∧
  (∀ q, getEncryptedId s' q = Revert NotRegistered ↔ isRegistered s' q = false) ∧
  ∀ txs, getEncryptedId (execute_all txs s') (msg_sender e) = Ok (HInput a).
Proof.
  intros (Hfresh & _ & _ & _ & ->)%register_Ok.
  unfold getEncryptedId, isRegistered. rewrite Hfresh. split; [done|]. split.
  { intros q. destruct (rd false _ q); split; done. }
  intros txs.
  match goal with |- context [execute_all txs ?st] => set (s1 := st) end.
  assert (rd false (_registered s1) (msg_sender e) = true ∧
          rd HZero (_encryptedIds s1) (msg_sender e) = HInput a) as Hs1.
  { subst s1. cbn. by rewrite !rd_insert_eq. }
  clearbody s1. revert s1 Hs1.
  induction txs as [|[e2 c2] txs IH]; intros s1 [Hr Hid].
  - cbn. by rewrite Hr, Hid.
  - cbn [execute_all foldl fst snd]. apply IH. split.
    + by apply execute_grows.
    + destruct (execute_keeps_id e2 c2 s1 _ Hr) as [-> _]. done.
Qed.

(** X4: a call to [register], whether it succeeds or reverts, changes nothing
    that belongs to another address (registration flag, slot, encrypted
    identifier, win status) and leaves the stored winner index, the drawn
    flag, the last draw timestamp, the admin and the limit as they were. *)
Theorem register_touches_only_caller
    (e : env) (a : Z) (pf : list Byte.byte) (s : state) (p : Z) :
  p ≠ msg_sender e →
  isRegistered (execute e (Register a pf) s) p = isRegistered s p ∧
  rd 0 (_indices (execute e (Register a pf) s)) p = rd 0 (_indices s) p ∧
  getEncryptedId (execute e (Register a pf) s) p = getEncryptedId s p ∧
  getEncryptedWinStatus (execute e (Register a pf) s) p = getEncryptedWinStatus s p ∧
  getEncryptedWinnerIndex (execute e (Register a pf) s) = getEncryptedWinnerIndex s ∧
  _hasDrawn (execute e (Register a pf) s) = _hasDrawn s ∧
  lastDrawTimestamp (execute e (Register a pf) s) = lastDrawTimestamp s ∧
  admin (execute e (Register a pf) s) = admin s ∧
  maxParticipants (execute e (Register a pf) s) = maxParticipants s.
Proof.
  intros Hne. unfold execute. cbn [run].
  destruct (register e a pf s) as [[ev s']|err] eqn:Hrun; [|done].
  apply register_Ok in Hrun as (_ & _ & _ & _ & ->).
  unfold isRegistered, getEncryptedId, getEncryptedWinStatus,
    getEncryptedWinnerIndex, lastDrawTimestamp, admin, maxParticipants. cbn.
  rewrite !rd_insert_ne by done. done.
Qed.

(** X5: a successful draw leaves the registry as it was (participant array,
    registration flags, slots, encrypted identifiers, admin and limit), sets
    the drawn flag and the last draw timestamp to the block's timestamp, and
    its [WinnerDrawn] event carries the participant count. *)
Theorem drawWinner_keeps_registry (e : env) (s : state) ev s' :
  drawWinner e s = Ok (ev, s') →
  _participants s' = _participants s ∧
  (∀ p, isRegistered s' p = isRegistered s p ∧
        rd 0 (_indices s') p = rd 0 (_indices s) p ∧
        getEncryptedId s' p = getEncryptedId s p) ∧
  admin s' = admin s ∧ maxParticipants s' = maxParticipants s ∧
  _hasDrawn s' = true ∧
  lastDrawTimestamp s' = block_timestamp e ∧
  ∃ c, ev = WinnerDrawn c (participantCount s).
Proof.
  intros (_ & _ & _ & -> & Hloop)%drawWinner_Ok.
  apply drawLoop_frame in Hloop
    as (Hadm & Hmax & Hps & Hreg & Hidx & Hids & _ & Hdrawn & Hts).
  cbn in Hadm, Hmax, Hps, Hreg, Hidx, Hids, Hdrawn, Hts.
  unfold isRegistered, getEncryptedId, admin, maxParticipants, lastDrawTimestamp,
    participantCount.
  rewrite Hadm, Hmax, Hps, Hreg, Hidx, Hids, Hdrawn, Hts.
  repeat split. by eexists.
Qed.


(** *** The outcome invariant *)

Lemma outcome_wf_register (e : env) (a : Z) (pf : list Byte.byte) (s : state) ev s' :
  registry_wf s → outcome_wf s → register e a pf s = Ok (ev, s') → outcome_wf s'.
Proof.
  intros (_ & Hreg & _) Hout (Hfresh & _ & _ & _ & ->)%register_Ok.
  assert (∀ (i : nat) p, _participants s !! i = Some p → msg_sender e ≠ p) as Hother.
  { intros i p Hp Heq. rewrite Heq in Hfresh.
    assert (rd false (_registered s) p = true) as Hin; [|congruence].
    apply Hreg. by eapply list_elem_of_lookup_2. }
  unfold outcome_wf in *. cbn. destruct (_hasDrawn s).
  - destruct Hout as (w & n & Hw & Hwn & Hw32 & Hn & Hst).
    exists w, n. split; [done|]. split; [done|]. split; [done|]. split.
    { rewrite length_app. lia. }
    intros i p Hp. apply lookup_app_Some in Hp as [Hp|[Hlen Hp]].
    + rewrite rd_insert_ne by (by eapply Hother). by apply Hst.
    + apply list_lookup_singleton_Some in Hp as [_ <-]. rewrite rd_insert_eq.
      destruct (decide (i < n)%nat); [lia|done].
  - destruct Hout as (Hw & Hts & Hst). split; [done|]. split; [done|].
    intros i p Hp. apply lookup_app_Some in Hp as [Hp|[Hlen Hp]].
    + rewrite rd_insert_ne by (by eapply Hother). by apply (Hst i).
    + apply list_lookup_singleton_Some in Hp as [_ <-]. by rewrite rd_insert_eq.
Qed.

Lemma outcome_wf_drawWinner (e : env) (s : state) ev s' :
  registry_wf s → drawWinner e s = Ok (ev, s') → outcome_wf s'.
Proof.
  intros (Hnd & _ & _) (_ & Hne & _ & _ & Hloop)%drawWinner_Ok.
  pose proof (drawLoop_frame _ _ _ _ Hloop) as (_ & _ & Hps & _ & _ & _ & Hw & Hdrawn & _).
  pose proof (λ Hn, drawLoop_status _ _ _ _ Hn Hloop) as Hst.
  cbn [_participants _encryptedWinnerIndex _hasDrawn] in Hps, Hw, Hdrawn, Hst.
  specialize (Hst Hnd).
  unfold outcome_wf. rewrite Hdrawn, Hps, Hw.
  assert (0 < Z.of_nat (length (_participants s))) as Hpos.
  { destruct (_participants s); [done|cbn; lia]. }
  pose proof (Z.mod_pos_bound (randomSeed e s) _ Hpos) as Hmod.
  pose proof (uint32_range (randomSeed e s mod Z.of_nat (length (_participants s)))).
  pose proof (uint32_le (randomSeed e s mod Z.of_nat (length (_participants s)))).
  exists (winnerIndex e s), (length (_participants s)).
  split; [done|]. unfold winnerIndex at 1 2 3.
  split; [lia|]. split; [lia|]. split; [lia|].
  intros i p Hp. pose proof (lookup_lt_Some _ _ _ Hp).
  destruct (decide (i < length (_participants s))%nat); [|lia].
  apply Hst; [lia|done].
Qed.

Lemma reachable_outcome_wf (deployer maxP : Z) (s : state) :
  reachable deployer maxP s → outcome_wf s.
Proof.
  induction 1 as [e _ _|s e c Hreach IH].
  - unfold outcome_wf. cbn. split; [done|]. split; [done|].
    intros i p. by rewrite lookup_nil.
  - pose proof (reachable_registry_wf _ _ _ Hreach) as Hwf. unfold execute.
    destruct (run e c s) as [[ev s']|err] eqn:Hrun; [|done].
    destruct c as [a pf|]; cbn in Hrun.
    + by eapply outcome_wf_register.
    + by eapply outcome_wf_drawWinner.
Qed.

(** X6: in every reachable state [getEncryptedWinnerIndex] returns the zero
    handle exactly when no draw has occurred, and until the first draw the
    last draw timestamp is zero and every registered participant's win status
    is the encryption of false. *)
Theorem winner_index_zero_iff_undrawn (deployer maxP : Z) (s : state) :
  reachable deployer maxP s →
  (getEncryptedWinnerIndex s = HZero ↔ _hasDrawn s = false) ∧
  (_hasDrawn s = false →
   lastDrawTimestamp s = 0 ∧
   ∀ p, isRegistered s p = true →
        getEncryptedWinStatus s p = Ok (FHE_asEbool false) ∧
        decrypt (FHE_asEbool false) = Some 0).
Proof.
  intros Hreach.
  pose proof (reachable_registry_wf _ _ _ Hreach) as Hwf.
  pose proof (reachable_outcome_wf _ _ _ Hreach) as Hout.
  unfold outcome_wf in Hout.
  unfold getEncryptedWinnerIndex, lastDrawTimestamp, isRegistered, getEncryptedWinStatus.
  destruct (_hasDrawn s).
  - destruct Hout as (w & n & -> & _). split; [|done]. split; done.
  - destruct Hout as (Hw & Hts & Hst). split; [done|]. intros _. split; [done|].
    intros p Hp. rewrite Hp. cbn [negb].
    destruct (registered_position s p Hwf Hp) as [i Hi].
    by rewrite (Hst i p Hi).
Qed.

(** X7: in every reachable state with at most [2^32] participants in which a
    draw has occurred, the stored winner index decrypts to a position [w] of
    the array, the participant standing there is registered and is the only
    registered participant whose win status decrypts to true; this holds
    after later registrations as well as right after the draw. *)
Theorem one_winner_in_every_state (deployer maxP : Z) (s : state) :
  reachable deployer maxP s →
  Z.of_nat (length (_participants s)) ≤ 2 ^ 32 →
  _hasDrawn s = true →
  ∃ (w : nat) p,
    decrypt (getEncryptedWinnerIndex s) = Some (Z.of_nat w) ∧
    _participants s !! w = Some p ∧
    isRegistered s p = true ∧
    decrypt (rd HZero (_winStatus s) p) = Some 1 ∧
    ∀ q, isRegistered s q = true →
         decrypt (rd HZero (_winStatus s) q) = Some 1 → q = p.
Proof.
  intros Hreach Hlen Hdrawn.
  pose proof (reachable_registry_wf _ _ _ Hreach) as (Hnd & Hreg & _).
  pose proof (reachable_outcome_wf _ _ _ Hreach) as Hout.
  unfold outcome_wf in Hout. rewrite Hdrawn in Hout.
  destruct Hout as (w & n & Hw & Hwn & Hw32 & Hn & Hst).
  assert (∀ (i : nat) q, _participants s !! i = Some q →
            decrypt (rd HZero (_winStatus s) q) =
            Some (if decide (i < n)%nat then if w =? Z.of_nat i then 1 else 0 else 0))
    as Hdec.
  { intros i q Hq. pose proof (lookup_lt_Some _ _ _ Hq).
    rewrite (Hst i q Hq). destruct (decide (i < n)%nat); [|done].
    rewrite uint32_small by lia. cbn.
    rewrite (Z.mod_small w), (Z.mod_small (Z.of_nat i)) by lia. done. }
  destruct (lookup_lt_is_Some_2 (_participants s) (Z.to_nat w)) as [p Hp]; [lia|].
  exists (Z.to_nat w), p. unfold getEncryptedWinnerIndex, isRegistered.
  split. { rewrite Hw. cbn. rewrite Z.mod_small by lia. f_equal. lia. }
  split; [done|]. split. { apply Hreg. by eapply list_elem_of_lookup_2. }
  split.
  { rewrite (Hdec _ _ Hp). destruct (decide (Z.to_nat w < n)%nat); [|lia].
    rewrite Z2Nat.id by lia. by rewrite Z.eqb_refl. }
  intros q Hq Hone. apply Hreg, list_elem_of_lookup_1 in Hq as [j Hj].
  rewrite (Hdec _ _ Hj) in Hone.
  destruct (decide (j < n)%nat); [|done].
  destruct (w =? Z.of_nat j) eqn:Heq; [|done].
  apply Z.eqb_eq in Heq. rewrite Heq, Nat2Z.id in Hp. congruence.
Qed.

(** X8: [getEncryptedWinStatus] reverts with [NotRegistered] exactly for an
    address that is not registered; for a registered participant of a
    reachable state it returns an initialised handle that decrypts to 0 or
    to 1. *)
Theorem win_status_is_a_bit (deployer maxP : Z) (s : state) (p : Z) :
  reachable deployer maxP s →
  (getEncryptedWinStatus s p = Revert NotRegistered ↔ isRegistered s p = false) ∧
  (isRegistered s p = true →
   ∃ h, getEncryptedWinStatus s p = Ok h ∧ h ≠ HZero ∧
        (decrypt h = Some 0 ∨ decrypt h = Some 1)).
Proof.
  intros Hreach.
  pose proof (reachable_registry_wf _ _ _ Hreach) as Hwf.
  pose proof (reachable_outcome_wf _ _ _ Hreach) as Hout.
  unfold getEncryptedWinStatus, isRegistered. split.
  { destruct (rd false (_registered s) p); split; done. }
  intros Hp. rewrite Hp. cbn [negb]. eexists. split; [done|].
  destruct (registered_position s p Hwf Hp) as [i Hi].
  unfold outcome_wf in Hout. destruct (_hasDrawn s).
  - destruct Hout as (w & n & _ & _ & _ & _ & Hst). rewrite (Hst i p Hi).
    destruct (decide (i < n)%nat); [|split; [done|by left]].
    split; [done|]. cbn. destruct (_ =? _); auto.
  - destruct Hout as (_ & _ & Hst). rewrite (Hst i p Hi). split; [done|by left].
Qed.


(** *** Who can decrypt what *)

(** X9: in every reachable state in which a draw has occurred, the stored
    winner index decrypts to a position below the participant count, and the
    contract and every participant of the array, late registrants included,
    hold a decrypt grant on it. *)
Theorem winner_index_readable_by_all (deployer maxP : Z) (s : state) :
  reachable deployer maxP s →
  _hasDrawn s = true →
  (∃ w, decrypt (getEncryptedWinnerIndex s) = Some w ∧ 0 ≤ w < participantCount s) ∧
  (getEncryptedWinnerIndex s, this) ∈ acl s ∧
  ∀ (i : nat) p, _participants s !! i = Some p →
    (getEncryptedWinnerIndex s, p) ∈ acl s.
Proof.
  unfold getEncryptedWinnerIndex, participantCount. intros Hreach Hdrawn. split.
  { pose proof (reachable_outcome_wf _ _ _ Hreach) as Hout.
    unfold outcome_wf in Hout. rewrite Hdrawn in Hout.
    destruct Hout as (w & n & -> & Hwn & Hw32 & Hn & _).
    exists w. cbn. rewrite Z.mod_small by lia. split; [done|lia]. }
  revert Hdrawn. induction Hreach as [e _ _|s e c Hreach IH]; [done|].
  unfold execute. destruct (run e c s) as [[ev s']|err] eqn:Hrun; [|exact IH].
  destruct c as [a pf|]; cbn in Hrun.
  - apply register_Ok in Hrun as (_ & _ & _ & _ & ->). cbn.
    intros Hdrawn. destruct (IH Hdrawn) as [Hthis Hall]. rewrite Hdrawn. cbn.
    split; [rewrite !elem_of_cons; auto 10|].
    intros i p Hp. apply lookup_app_Some in Hp as [Hp|[_ Hp]].
    + specialize (Hall i p Hp). rewrite !elem_of_cons. auto 10.
    + apply list_lookup_singleton_Some in Hp as [_ <-]. apply list_elem_of_here.
  - intros _. apply drawWinner_Ok in Hrun as (_ & _ & _ & _ & Hloop).
    pose proof (drawLoop_frame _ _ _ _ Hloop) as (_ & _ & Hps & _ & _ & _ & Hw & _).
    pose proof (drawLoop_grants _ _ _ _ Hloop) as Hgr.
    cbn [_participants _encryptedWinnerIndex] in Hps, Hw, Hgr.
    rewrite Hps, Hw. split.
    + eapply drawLoop_acl_mono; [exact Hloop|]. apply list_elem_of_here.
    + intros i p Hp. pose proof (lookup_lt_Some _ _ _ Hp).
      by apply (Hgr i p); [lia|].
Qed.

(** X10: in every reachable state the contract and each participant hold a
    decrypt grant on that participant's encrypted identifier, and a grant on
    a user input handle is held by nobody but the contract and registered
    participants whose stored identifier is that very handle. *)
Theorem encrypted_id_grants (deployer maxP : Z) (s : state) :
  reachable deployer maxP s →
  (∀ p, isRegistered s p = true →
     ∃ h, getEncryptedId s p = Ok h ∧ (h, p) ∈ acl s ∧ (h, this) ∈ acl s) ∧
  (∀ raw x, (HInput raw, x) ∈ acl s →
     x = this ∨ (isRegistered s x = true ∧ getEncryptedId s x = Ok (HInput raw))).
Proof.
  intros Hreach.
  assert ((∀ p, rd false (_registered s) p = true →
             (rd HZero (_encryptedIds s) p, p) ∈ acl s ∧
             (rd HZero (_encryptedIds s) p, this) ∈ acl s) ∧
          (∀ raw x, (HInput raw, x) ∈ acl s →
             x = this ∨ (rd false (_registered s) x = true ∧
                         rd HZero (_encryptedIds s) x = HInput raw))) as [Hown Honly].
  { induction Hreach as [e _ _|s e c Hreach [IHown IHonly]].
    { cbn. split; [intros p; by rewrite rd_empty|]. by intros raw x ?%elem_of_nil. }
    pose proof (reachable_outcome_wf _ _ _ Hreach) as Hout.
    unfold execute. destruct (run e c s) as [[ev s']|err] eqn:Hrun; [|done].
    destruct c as [a pf|]; cbn in Hrun.
    - apply register_Ok in Hrun as (Hfresh & _ & _ & _ & ->). cbn. split.
      + intros p. destruct (decide (msg_sender e = p)) as [<-|Hne].
        * intros _. rewrite rd_insert_eq.
          destruct (_hasDrawn s); cbn; rewrite !elem_of_cons; auto 10.
        * rewrite !rd_insert_ne by done. intros [? ?]%IHown.
          destruct (_hasDrawn s); cbn; rewrite !elem_of_cons; auto 10.
      + intros raw x Hin.
        assert ((HInput raw, x) = (HInput a, msg_sender e) ∨
                (HInput raw, x) = (HInput a, this) ∨
                (HInput raw, x) ∈ acl s) as Hcases.
        { unfold outcome_wf in Hout.
          destruct (_hasDrawn s); cbn in Hin; rewrite !elem_of_cons in Hin.
          - destruct Hout as (w & n & Hw & _). rewrite Hw in Hin.
            destruct Hin as [[=]|[[=]|[[=]|[?|[?|?]]]]]; auto.
          - destruct Hin as [[=]|[[=]|[?|[?|?]]]]; auto. }
        destruct Hcases as [[= -> ->]|[[= -> ->]|Hold]].
        * right. by rewrite !rd_insert_eq.
        * by left.
        * destruct (IHonly raw x Hold) as [?|[Hx Hid]]; [by left|]. right.
          assert (msg_sender e ≠ x) as Hne by (intros Heq; rewrite Heq in Hfresh; congruence).
          by rewrite !rd_insert_ne.
    - apply drawWinner_Ok in Hrun as (_ & _ & _ & _ & Hloop).
      pose proof (drawLoop_frame _ _ _ _ Hloop) as (_ & _ & _ & Hreg & _ & Hids & _).
      pose proof (λ g, drawLoop_acl _ _ _ _ g Hloop) as Hacl.
      cbn [_registered _encryptedIds _participants _encryptedWinnerIndex acl]
        in Hreg, Hids, Hacl.
      rewrite Hreg, Hids. split.
      + intros p [? ?]%IHown.
        split; (eapply drawLoop_acl_mono; [exact Hloop|]); by apply list_elem_of_further.
      + intros raw x Hin. destruct (Hacl _ Hin) as [Hold|(j & q & _ & _ & Hcase)].
        * apply elem_of_cons in Hold as [[=]|Hold]. by apply IHonly.
        * destruct Hcase as [[=]|[[=]|[=]]]. }
  unfold isRegistered, getEncryptedId. split.
  - intros p Hp. rewrite Hp. cbn [negb]. eexists. split; [done|]. by apply Hown.
  - intros raw x Hin. destruct (Honly raw x Hin) as [?|[Hx Hid]]; [by left|].
    right. by rewrite Hx, Hid.
Qed.

(** *** A full raffle *)

Lemma execute_full (e : env) (c : call) (s : state) :
  Z.of_nat (length (_participants s)) = MAX_PARTICIPANTS s →
  _participants (execute e c s) = _participants s ∧
  MAX_PARTICIPANTS (execute e c s) = MAX_PARTICIPANTS s.
Proof.
  intros Hfull. unfold execute.
  destruct (run e c s) as [[ev s']|err] eqn:Hrun; [|done].
  destruct c as [a pf|]; cbn in Hrun.
  - apply register_Ok in Hrun as (_ & Hlt & _). lia.
  - apply drawWinner_Ok in Hrun as (_ & _ & _ & _ & Hloop).
    by apply drawLoop_frame in Hloop as (_ & -> & -> & _).
Qed.

(** X11: once the participant count has reached the limit it stays there:
    after any further transactions the participant array is the same and
    every call to [register] reverts; in particular a deployment with limit
    zero never has a participant. *)
Theorem full_stays_full (txs : list (env * call)) (s : state) :
  participantCount s = maxParticipants s →
  _participants (execute_all txs s) = _participants s ∧
  ∀ e a pf, ∃ err, register e a pf (execute_all txs s) = Revert err.
Proof.
  unfold participantCount, maxParticipants. intros Hfull.
  assert (_participants (execute_all txs s) = _participants s ∧
          MAX_PARTICIPANTS (execute_all txs s) = MAX_PARTICIPANTS s) as [Hps Hmax].
  { revert s Hfull. induction txs as [|[e c] txs IH]; intros s Hfull; [done|].
    cbn [execute_all foldl fst snd].
    destruct (execute_full e c s Hfull) as [Hps Hmax].
    destruct (IH (execute e c s)) as [IHp IHm]; [by rewrite Hps, Hmax|].
    unfold execute_all in IHp, IHm. by rewrite IHp, IHm. }
  split; [done|]. intros e a pf.
  destruct (register e a pf (execute_all txs s)) as [[ev s']|err] eqn:Hrun; [|by eexists].
  apply register_Ok in Hrun as (_ & Hlt & _). rewrite Hps, Hmax in Hlt. lia.
Qed.


(** X12: the contract never grants decrypt rights to an outsider: in every
    reachable state each grant of the access-control list is held by the
    contract itself or by a registered participant. *)
Theorem grants_only_to_participants (deployer maxP : Z) (s : state) (h : handle) (x : Z) :
  reachable deployer maxP s →
  (h, x) ∈ acl s →
  x = this ∨ isRegistered s x = true.
Proof.
  unfold isRegistered. intros Hreach. revert h x.
  induction Hreach as [e _ _|s e c Hreach IH]; intros h x; [by intros ?%elem_of_nil|].
  pose proof (reachable_registry_wf _ _ _ Hreach) as (_ & Hreg & _).
  unfold execute. destruct (run e c s) as [[ev s']|err] eqn:Hrun; [|apply IH].
  destruct c as [a pf|]; cbn in Hrun.
  - apply register_Ok in Hrun as (_ & _ & _ & _ & ->). cbn. intros Hin.
    assert (x = msg_sender e ∨ x = this ∨ (h, x) ∈ acl s) as Hcases.
    { destruct (_hasDrawn s); cbn in Hin; rewrite !elem_of_cons in Hin.
      - destruct Hin as [[= _ ->]|[[= _ ->]|[[= _ ->]|[[= _ ->]|[[= _ ->]|?]]]]]; auto.
      - destruct Hin as [[= _ ->]|[[= _ ->]|[[= _ ->]|[[= _ ->]|?]]]]; auto. }
    destruct Hcases as [->|[->|Hold]]; [right; by rewrite rd_insert_eq|by left|].
    destruct (IH h x Hold) as [?|Hx]; [by left|]. right.
    destruct (decide (msg_sender e = x)) as [<-|Hne];
      [by rewrite rd_insert_eq|by rewrite rd_insert_ne].
  - apply drawWinner_Ok in Hrun as (_ & _ & _ & _ & Hloop).
    pose proof (drawLoop_frame _ _ _ _ Hloop) as (_ & _ & _ & Hregs & _).
    pose proof (λ g, drawLoop_acl _ _ _ _ g Hloop) as Hacl.
    cbn [_registered _participants _encryptedWinnerIndex acl] in Hregs, Hacl.
    rewrite Hregs. intros Hin.
    destruct (Hacl _ Hin) as [Hold|(j & q & _ & Hq & Hcase)].
    + apply elem_of_cons in Hold as [[= _ ->]|Hold]; [by left|by apply (IH h)].
    + assert (rd false (_registered s) q = true) as Hqreg.
      { apply Hreg. by eapply list_elem_of_lookup_2. }
      destruct Hcase as [[= _ ->]|[[= _ ->]|[= _ ->]]]; auto.
Qed.

End Properties.

(** ** The sample deployment at work *)

#[local] Existing Instance sample_platform.

Lemma crowd_reachable (maxP : Z) (n : nat) :
  0 ≤ maxP < 2 ^ 256 → reachable 1 maxP (crowd maxP n).
Proof.
  intros HmaxP. induction n as [|n IH]; cbn [crowd].
  - by apply reachable_deploy.
  - by apply reachable_call.
Qed.

(** Nobody draws in a crowd. *)
Lemma crowd_undrawn (maxP : Z) (n : nat) :
  _hasDrawn (crowd maxP n) = false ∧ _lastDrawTimestamp (crowd maxP n) = 0.
Proof.
  induction n as [|n [IHd IHt]]; cbn [crowd]; [done|].
  unfold execute. cbn [run].
  destruct (register _ _ _ _) as [[ev s']|err] eqn:Hrun; [|done].
  by apply register_Ok in Hrun as (_ & _ & _ & _ & ->).
Qed.

(** Below the limit every registration of a crowd goes through. *)
Lemma crowd_participants (maxP : Z) (n : nat) :
  0 ≤ maxP < 2 ^ 256 → Z.of_nat n ≤ maxP →
  _participants (crowd maxP n) = (λ k : nat, Z.of_nat k + 2) <$> seq 0 n.
Proof.
  intros HmaxP. induction n as [|n IH]; intros Hn; cbn [crowd]; [done|].
  specialize (IH ltac:(lia)).
  pose proof (crowd_reachable maxP n HmaxP) as Hreach.
  pose proof (reachable_registry_wf _ _ _ Hreach) as (_ & Hreg & _).
  pose proof (reachable_immutables _ _ _ Hreach) as [_ Hmax].
  destruct (register_succeeds (sample_env (Z.of_nat n + 2) 0) 0 [] (crowd maxP n))
    as (ev & s' & Hok).
  - destruct (rd false _ _) eqn:Hrd; [|done].
    apply Hreg in Hrd. rewrite IH in Hrd.
    apply list_elem_of_fmap in Hrd as (k & Hk & Hin%elem_of_seq). cbn in Hk. lia.
  - rewrite IH, Hmax, length_fmap, length_seq. lia.
  - done.
  - unfold execute. cbn [run]. rewrite Hok.
    apply register_Ok in Hok as (_ & _ & _ & _ & ->). cbn [_participants msg_sender sample_env].
    rewrite IH, seq_S, fmap_app. done.
Qed.

Lemma crowd_lookup (maxP : Z) (n i : nat) :
  0 ≤ maxP < 2 ^ 256 → Z.of_nat n ≤ maxP → (i < n)%nat →
  _participants (crowd maxP n) !! i = Some (Z.of_nat i + 2).
Proof.
  intros HmaxP Hn Hi. rewrite crowd_participants by done.
  rewrite list_lookup_fmap, lookup_seq_lt by done. done.
Qed.

(** A crowd of [2^32], then one more: the newcomer stands at position [2^32]
    and is given slot 0. *)
Lemma crowd_slot_wraps (n : nat) (a : Z) :
  Z.of_nat n = 2 ^ 32 → a = 2 ^ 32 + 2 →
  registry_consistent (crowd (2 ^ 33) n) ∧
  ¬ registry_consistent (execute (sample_env a 0) (Register 0 []) (crowd (2 ^ 33) n)).
Proof.
  intros Hn ->. assert (0 ≤ 2 ^ 33 < 2 ^ 256) as HmaxP by lia.
  pose proof (crowd_reachable (2 ^ 33) n HmaxP) as Hreach.
  pose proof (reachable_registry_wf _ _ _ Hreach) as (Hnd & Hreg & Hidx).
  assert (length (_participants (crowd (2 ^ 33) n)) = n) as Hlen.
  { rewrite crowd_participants by lia. by rewrite length_fmap, length_seq. }
  split.
  - split; [done|]. split; [done|]. intros i p Hp.
    rewrite (Hidx i p Hp). apply uint32_small.
    apply lookup_lt_Some in Hp. lia.
  - intros (_ & _ & Hidx').
    replace (2 ^ 32 + 2) with (Z.of_nat n + 2) in Hidx' by lia.
    change (execute (sample_env (Z.of_nat n + 2) 0) (Register 0 []) (crowd (2 ^ 33) n))
      with (crowd (2 ^ 33) (S n)) in Hidx'.
    pose proof (crowd_reachable (2 ^ 33) (S n) HmaxP) as Hreach'.
    pose proof (reachable_registry_wf _ _ _ Hreach') as (_ & _ & Hwrap).
    assert (_participants (crowd (2 ^ 33) (S n)) !! n = Some (Z.of_nat n + 2)) as Hp.
    { rewrite crowd_lookup by lia. done. }
    specialize (Hidx' n _ Hp). rewrite (Hwrap n _ Hp), Hn in Hidx'. done.
Qed.

(** The same registration seen from outside: the event carries index 0 for
    the newcomer at position [2^32], and the participant at position 0 has
    slot 0 as well. *)
Lemma crowd_slot_event (n : nat) (a : Z) :
  Z.of_nat n = 2 ^ 32 → a = 2 ^ 32 + 2 →
  ∃ s', register (sample_env a 0) 0 [] (crowd (2 ^ 33) n)
          = Ok (ParticipantRegistered a 0, s') ∧
    _participants s' !! n = Some a ∧ rd 0 (_indices s') a = 0 ∧
    _participants s' !! 0%nat = Some 2 ∧ rd 0 (_indices s') 2 = 0.
Proof.
  intros Hn ->. assert (0 ≤ 2 ^ 33 < 2 ^ 256) as HmaxP by lia.
  pose proof (crowd_reachable (2 ^ 33) n HmaxP) as Hreach.
  pose proof (reachable_registry_wf _ _ _ Hreach) as (_ & Hreg & _).
  pose proof (reachable_immutables _ _ _ Hreach) as [_ Hmax].
  pose proof (crowd_participants (2 ^ 33) n HmaxP ltac:(lia)) as Hps.
  assert (length (_participants (crowd (2 ^ 33) n)) = n) as Hlen.
  { by rewrite Hps, length_fmap, length_seq. }
  destruct (register_succeeds (sample_env (2 ^ 32 + 2) 0) 0 [] (crowd (2 ^ 33) n))
    as (ev & s' & Hok).
  - destruct (rd false _ _) eqn:Hrd; [|done].
    apply Hreg in Hrd. rewrite Hps in Hrd.
    apply list_elem_of_fmap in Hrd as (k & Hk & Hin%elem_of_seq). cbn in Hk. lia.
  - rewrite Hmax, Hlen. lia.
  - done.
  - exists s'. rewrite Hok.
    assert (_participants (crowd (2 ^ 33) n) !! 0%nat = Some 2) as H0.
    { rewrite crowd_lookup by lia. done. }
    apply register_Ok in Hok as (Hfresh & _ & _ & -> & ->).
    cbn [msg_sender sample_env _participants _indices]. rewrite Hlen, Hn.
    split; [done|]. split.
    { by rewrite lookup_app_r, Hlen, Nat.sub_diag by lia. }
    split; [by rewrite rd_insert_eq|]. split.
    { by apply lookup_app_l_Some. }
    rewrite rd_insert_ne by lia.
    pose proof (reachable_registry_wf _ _ _ Hreach) as (_ & _ & Hidx).
    by rewrite (Hidx 0%nat 2 H0).
Qed.

Lemma latecomers_reachable (n : nat) : reachable 1 (2 ^ 33) (latecomers n).
Proof.
  induction n as [|n IH]; cbn [latecomers]; apply reachable_call; [|done].
  apply crowd_reachable. lia.
Qed.

(** The draw stays the one of time 7, with winner index 0. *)
Lemma latecomers_drawn (n : nat) :
  _hasDrawn (latecomers n) = true ∧
  _encryptedWinnerIndex (latecomers n) = FHE_asEuint32 0.
Proof.
  induction n as [|n [IHd IHw]]; cbn [latecomers]; [by vm_compute|].
  unfold execute. cbn [run].
  destruct (register _ _ _ _) as [[ev s']|err] eqn:Hrun; [|done].
  by apply register_Ok in Hrun as (_ & _ & _ & _ & ->).
Qed.

Lemma latecomers_participants (n : nat) :
  Z.of_nat n < 2 ^ 33 →
  _participants (latecomers n) = (λ k : nat, Z.of_nat k + 2) <$> seq 0 (S n).
Proof.
  induction n as [|n IH]; intros Hn; cbn [latecomers]; [by vm_compute|].
  specialize (IH ltac:(lia)).
  pose proof (latecomers_reachable n) as Hreach.
  pose proof (reachable_registry_wf _ _ _ Hreach) as (_ & Hreg & _).
  pose proof (reachable_immutables _ _ _ Hreach) as [_ Hmax].
  destruct (register_succeeds (sample_env (Z.of_nat n + 3) 8) 0 [] (latecomers n))
    as (ev & s' & Hok).
  - destruct (rd false _ _) eqn:Hrd; [|done].
    apply Hreg in Hrd. rewrite IH in Hrd.
    apply list_elem_of_fmap in Hrd as (k & Hk & Hin%elem_of_seq). cbn in Hk. lia.
  - rewrite IH, Hmax, length_fmap, length_seq. lia.
  - done.
  - unfold execute. cbn [run]. rewrite Hok.
    apply register_Ok in Hok as (_ & _ & _ & _ & ->). cbn [_participants msg_sender sample_env].
    rewrite IH, (seq_S (S n)), fmap_app. f_equal. cbn [fmap list_fmap]. f_equal. lia.
Qed.

(** After [2^32 - 1] latecomers the next one stands at position [2^32] and
    is given slot 0, the stored winner index. *)
Lemma latecomers_slot_wraps (n : nat) (a : Z) :
  Z.of_nat n = 2 ^ 32 - 1 → a = 2 ^ 32 + 2 →
  ∃ s', register (sample_env a 8) 0 [] (latecomers n) = Ok (ParticipantRegistered a 0, s') ∧
    decrypt (getEncryptedWinnerIndex s') = Some 0 ∧
    rd 0 (_indices s') a = 0 ∧
    decrypt (rd HZero (_winStatus s') a) = Some 0.
Proof.
  intros Hn ->.
  pose proof (latecomers_reachable n) as Hreach.
  pose proof (reachable_registry_wf _ _ _ Hreach) as (_ & Hreg & _).
  pose proof (reachable_immutables _ _ _ Hreach) as [_ Hmax].
  pose proof (latecomers_drawn n) as [_ Hw].
  pose proof (latecomers_participants n ltac:(lia)) as Hps.
  assert (length (_participants (latecomers n)) = S n) as Hlen.
  { by rewrite Hps, length_fmap, length_seq. }
  destruct (register_succeeds (sample_env (2 ^ 32 + 2) 8) 0 [] (latecomers n))
    as (ev & s' & Hok).
  - destruct (rd false _ _) eqn:Hrd; [|done].
    apply Hreg in Hrd. rewrite Hps in Hrd.
    apply list_elem_of_fmap in Hrd as (k & Hk & Hin%elem_of_seq). cbn in Hk. lia.
  - rewrite Hmax, Hlen. lia.
  - done.
  - exists s'. rewrite Hok.
    apply register_Ok in Hok as (_ & _ & _ & -> & ->).
    cbn [msg_sender sample_env]. rewrite Hlen.
    replace (Z.of_nat (S n)) with (2 ^ 32) by lia.
    split; [done|].
    unfold getEncryptedWinnerIndex. cbn [_encryptedWinnerIndex _indices _winStatus].
    rewrite Hw, !rd_insert_eq. done.
Qed.


(** With comparisons at 86,000 units a draw over 232 participants fits under
    the limit and a draw over 233 does not. *)
Lemma draw_capacity_sample :
  (∃ ev s', drawWinner (sample_env 1 7) (crowd 300 232) = Ok (ev, s')) ∧
  drawWinner (sample_env 1 7) (crowd 300 233) = Revert HCUTransactionLimitExceeded.
Proof.
  assert (∀ n : nat, Z.of_nat n ≤ 300 →
            ADMIN_ADDRESS (crowd 300 n) = 1 ∧ length (_participants (crowd 300 n)) = n)
    as Hcrowd.
  { intros n Hn. split.
    - apply (reachable_immutables 1 300), crowd_reachable. lia.
    - rewrite crowd_participants by lia. rewrite length_fmap. apply length_seq. }
  split.
  - destruct (Hcrowd 232%nat ltac:(lia)) as [Hadm Hlen].
    apply drawWinner_succeeds.
    + rewrite Hadm. reflexivity.
    + intros Hnil. rewrite Hnil in Hlen. discriminate Hlen.
    + change (1 ≤ 1). lia.
    + rewrite Hlen. unfold MAX_HCU_PER_TX. change (Z.pos hcuEq) with 86000. lia.
  - destruct (Hcrowd 233%nat ltac:(lia)) as [Hadm Hlen].
    destruct (drawWinner (sample_env 1 7) (crowd 300 233)) as [[ev s']|err] eqn:Hrun.
    + exfalso. apply drawWinner_Ok in Hrun as (_ & _ & _ & _ & Hloop).
      apply drawLoop_Ok_fits in Hloop as [Hzero|Hfit].
      * rewrite Hlen in Hzero. discriminate Hzero.
      * rewrite Hlen in Hfit. unfold MAX_HCU_PER_TX in Hfit.
        change (Z.pos hcuEq) with 86000 in Hfit. lia.
    + apply drawWinner_Revert in Hrun
        as [(_ & Hne)|[(_ & _ & Hnil)|[(_ & _ & _ & Hnum)|(Herr & _)]]].
      * exfalso. apply Hne. rewrite Hadm. reflexivity.
      * exfalso. rewrite Hnil in Hlen. discriminate Hlen.
      * exfalso. change (1 < 1) in Hnum. lia.
      * rewrite Herr. reflexivity.
Qed.

(** ** The claims on the sample deployment *)

(** C1 on a deployment with three participants: the draw at time 7 has seed
    10, so the winner index is 1 and participant 3 alone decrypts to true. *)
Lemma drawWinner_selects_one_witness :
  reachable 1 5 (crowd 5 3) ∧
  drawWinner (sample_env 1 7) (crowd 5 3) =
    Ok (WinnerDrawn 11 3, execute (sample_env 1 7) DrawWinner (crowd 5 3)) ∧
  winnerIndex (sample_env 1 7) (crowd 5 3) = 10 mod 3 ∧
  getEncryptedWinStatus (execute (sample_env 1 7) DrawWinner (crowd 5 3)) 3 =
    Ok (FHE_eq (FHE_asEuint32 1) (FHE_asEuint32 1)) ∧
  ∃ p, isRegistered (execute (sample_env 1 7) DrawWinner (crowd 5 3)) p = true ∧
    decrypt (rd HZero (_winStatus (execute (sample_env 1 7) DrawWinner (crowd 5 3))) p) = Some 1 ∧
    ∀ q, isRegistered (execute (sample_env 1 7) DrawWinner (crowd 5 3)) q = true →
      decrypt (rd HZero (_winStatus (execute (sample_env 1 7) DrawWinner (crowd 5 3))) q) = Some 1 →
      q = p.
Proof.
  assert (reachable 1 5 (crowd 5 3)) as Hreach by (apply crowd_reachable; lia).
  assert (drawWinner (sample_env 1 7) (crowd 5 3) =
    Ok (WinnerDrawn 11 3, execute (sample_env 1 7) DrawWinner (crowd 5 3))) as Hok
    by (vm_compute; reflexivity).
  destruct (drawWinner_selects_one 1 5 (sample_env 1 7) (crowd 5 3) _ _ Hreach Hok)
    as (Hw & _ & _ & _ & Hst & Hone).
  split; [exact Hreach|]. split; [exact Hok|].
  split; [exact Hw|]. split; [|exact Hone].
  exact (proj1 (Hst 1%nat 3 eq_refl)).
Defined.



(** C3, as stated, fails: in the state after a draw a registration from a
    new address succeeds and the admin can draw again. *)
Lemma register_and_draw_after_draw :
  reachable 1 5 (execute (sample_env 1 7) DrawWinner (crowd 5 1)) ∧
  _hasDrawn (execute (sample_env 1 7) DrawWinner (crowd 5 1)) = true ∧
  (∃ s', register (sample_env 9 8) 0 [] (execute (sample_env 1 7) DrawWinner (crowd 5 1))
           = Ok (ParticipantRegistered 9 1, s') ∧ participantCount s' = 2) ∧
  (∃ s', drawWinner (sample_env 1 8) (execute (sample_env 1 7) DrawWinner (crowd 5 1))
           = Ok (WinnerDrawn 17 1, s') ∧ _lastDrawTimestamp s' = 8).
Proof.
  split; [apply reachable_call, crowd_reachable; lia|]. split; [reflexivity|].
  split; eexists; (split; [vm_compute; reflexivity|reflexivity]).
Qed.

(** C4 on a deployment by account 1: a draw requested by account 2 reverts
    and changes nothing. *)
Lemma drawWinner_only_admin_witness :
  reachable 1 5 (crowd 5 2) ∧
  admin (crowd 5 2) = 1 ∧
  drawWinner (sample_env 2 7) (crowd 5 2) = Revert NotAuthorized ∧
  execute (sample_env 2 7) DrawWinner (crowd 5 2) = crowd 5 2.
Proof.
  assert (reachable 1 5 (crowd 5 2)) as Hreach by (apply crowd_reachable; lia).
  destruct (drawWinner_only_admin 1 5 (crowd 5 2) (sample_env 2 7) Hreach)
    as (Hadm & Hiff & Hsame).
  assert (drawWinner (sample_env 2 7) (crowd 5 2) = Revert NotAuthorized) as Hrev
    by (apply Hiff; cbn; lia).
  split; [exact Hreach|]. split; [exact Hadm|]. split; [exact Hrev|exact (Hsame Hrev)].
Defined.

(** C6, as stated, fails for a caller who is not the admin: with an empty
    participant list the call reverts with [NotAuthorized]. *)
Lemma drawWinner_empty_not_admin :
  _participants (constructor (sample_env 1 0) 5) = [] ∧
  drawWinner (sample_env 2 7) (constructor (sample_env 1 0) 5) = Revert NotAuthorized ∧
  drawWinner (sample_env 2 7) (constructor (sample_env 1 0) 5) ≠ Revert NoParticipants.
Proof. split; [reflexivity|]. split; [reflexivity|discriminate]. Qed.

(** C7 on two block environments that differ only in the hashes of other
    blocks, and on two deployments with the same participant count. *)
Lemma drawWinner_deterministic_witness :
  blockhash (sample_env 1 7) 0 = blockhash (mkEnv 1 1 7 0 (λ n, if n =? 0 then 0 else 99)) 0 ∧
  winnerIndex (sample_env 1 7) (crowd 5 3) =
    winnerIndex (mkEnv 1 1 7 0 (λ n, if n =? 0 then 0 else 99)) (crowd 9 3) ∧
  drawWinner (sample_env 1 7) (crowd 5 3) =
    drawWinner (mkEnv 1 1 7 0 (λ n, if n =? 0 then 0 else 99)) (crowd 5 3).
Proof.
  destruct (drawWinner_deterministic (sample_env 1 7)
              (mkEnv 1 1 7 0 (λ n, if n =? 0 then 0 else 99)) (crowd 5 3) (crowd 9 3)
              eq_refl eq_refl eq_refl) as [Hidx _].
  destruct (drawWinner_deterministic (sample_env 1 7)
              (mkEnv 1 1 7 0 (λ n, if n =? 0 then 0 else 99)) (crowd 5 3) (crowd 5 3)
              eq_refl eq_refl eq_refl) as [_ Hsame].
  split; [reflexivity|]. split.
  - apply Hidx; reflexivity.
  - apply Hsame; reflexivity.
Defined.

(** C8, as stated, fails for a caller who is already registered: with the
    limit reached the call reverts with [AlreadyRegistered]. *)
Lemma register_full_already_registered :
  reachable 1 1 (crowd 1 1) ∧
  isRegistered (crowd 1 1) 2 = true ∧
  participantCount (crowd 1 1) = maxParticipants (crowd 1 1) ∧
  register (sample_env 2 3) 0 [] (crowd 1 1) = Revert AlreadyRegistered ∧
  register (sample_env 2 3) 0 [] (crowd 1 1) ≠ Revert (Error "Maximum participants reached").
Proof.
  split; [apply crowd_reachable; lia|].
  split; [reflexivity|]. split; [reflexivity|]. split; [reflexivity|discriminate].
Qed.

(** C8 on a deployment with limit 2 that is full: account 7 is turned away. *)
Lemma participants_within_limit_witness :
  reachable 1 2 (crowd 2 2) ∧
  participantCount (crowd 2 2) = 2 ∧ maxParticipants (crowd 2 2) = 2 ∧
  isRegistered (crowd 2 2) 7 = false ∧
  register (sample_env 7 3) 0 [] (crowd 2 2) = Revert (Error "Maximum participants reached") ∧
  execute (sample_env 7 3) (Register 0 []) (crowd 2 2) = crowd 2 2.
Proof.
  assert (reachable 1 2 (crowd 2 2)) as Hreach by (apply crowd_reachable; lia).
  destruct (participants_within_limit 1 2 (crowd 2 2) Hreach) as (Hmax & _ & Hfull).
  split; [exact Hreach|]. split; [reflexivity|]. split; [exact Hmax|].
  split; [reflexivity|]. exact (Hfull (sample_env 7 3) 0 [] eq_refl eq_refl).
Defined.

(** C9 on a deployment where account 9 registers after the draw and account
    10 after that. *)
Lemma late_registration_not_winner_witness :
  _hasDrawn (execute (sample_env 1 7) DrawWinner (crowd 5 1)) = true ∧
  register (sample_env 9 8) 0 [] (execute (sample_env 1 7) DrawWinner (crowd 5 1)) =
    Ok (ParticipantRegistered 9 1,
        execute (sample_env 9 8) (Register 0 [])
          (execute (sample_env 1 7) DrawWinner (crowd 5 1))) ∧
  (HTrivial Uint32 0, 9)
    ∈ acl (execute (sample_env 9 8) (Register 0 [])
             (execute (sample_env 1 7) DrawWinner (crowd 5 1))) ∧
  getEncryptedWinStatus
    (execute_all [(sample_env 10 9, Register 0 [])]
       (execute (sample_env 9 8) (Register 0 [])
          (execute (sample_env 1 7) DrawWinner (crowd 5 1)))) 9 = Ok (FHE_asEbool false).
Proof.
  assert (register (sample_env 9 8) 0 [] (execute (sample_env 1 7) DrawWinner (crowd 5 1)) =
    Ok (ParticipantRegistered 9 1,
        execute (sample_env 9 8) (Register 0 [])
          (execute (sample_env 1 7) DrawWinner (crowd 5 1)))) as Hok
    by (vm_compute; reflexivity).
  assert (_hasDrawn (execute (sample_env 1 7) DrawWinner (crowd 5 1)) = true) as Hdrawn
    by reflexivity.
  destruct (late_registration_not_winner (sample_env 9 8) 0 []
              (execute (sample_env 1 7) DrawWinner (crowd 5 1)) _ _ Hdrawn Hok)
    as (_ & Hgrant & Hlater).
  split; [reflexivity|]. split; [exact Hok|]. split; [exact Hgrant|].
  apply Hlater. repeat constructor. by eexists _, _.
Defined.

(** C10: the claimed invariant holds in the state reached by [2^32]
    registrations and is broken by the next one.  The newcomer stands at
    position [2^32], but the slot stored for it and the index carried by its
    [ParticipantRegistered] event are 0, the slot of the participant at
    position 0: the cast to [uint32] drops the position's high bit. *)
Lemma registry_index_wraps :
  reachable 1 (2 ^ 33) (crowd (2 ^ 33) (Z.to_nat (2 ^ 32))) ∧
  registry_consistent (crowd (2 ^ 33) (Z.to_nat (2 ^ 32))) ∧
  ¬ registry_consistent
      (execute (sample_env (2 ^ 32 + 2) 0) (Register 0 [])
         (crowd (2 ^ 33) (Z.to_nat (2 ^ 32)))) ∧
  ∃ s', register (sample_env (2 ^ 32 + 2) 0) 0 [] (crowd (2 ^ 33) (Z.to_nat (2 ^ 32)))
          = Ok (ParticipantRegistered (2 ^ 32 + 2) 0, s') ∧
    _participants s' !! Z.to_nat (2 ^ 32) = Some (2 ^ 32 + 2) ∧
    rd 0 (_indices s') (2 ^ 32 + 2) = 0 ∧
    _participants s' !! 0%nat = Some 2 ∧ rd 0 (_indices s') 2 = 0.
Proof.
  split; [apply crowd_reachable; lia|].
  destruct (crowd_slot_wraps (Z.to_nat (2 ^ 32)) (2 ^ 32 + 2)) as [Hbefore Hafter];
    [lia|lia|].
  split; [exact Hbefore|]. split; [exact Hafter|].
  apply crowd_slot_event; lia.
Qed.

(** The registry invariant on a deployment with two participants: account 4
    registers and stands at position 2. *)
Lemma registry_wf_preserved_witness :
  registry_wf (crowd 5 2) ∧
  registry_wf (execute (sample_env 4 3) (Register 0 []) (crowd 5 2)) ∧
  registry_consistent (execute (sample_env 4 3) (Register 0 []) (crowd 5 2)) ∧
  _participants (execute (sample_env 4 3) (Register 0 []) (crowd 5 2)) !! 2%nat = Some 4.
Proof.
  assert (registry_wf (crowd 5 2)) as Hwf.
  { apply (reachable_registry_wf 1 5), crowd_reachable. lia. }
  assert (run (sample_env 4 3) (Register 0 []) (crowd 5 2) =
          Ok (ParticipantRegistered 4 2,
              execute (sample_env 4 3) (Register 0 []) (crowd 5 2))) as Hrun
    by (vm_compute; reflexivity).
  destruct (registry_wf_preserved (sample_env 4 3) (Register 0 []) (crowd 5 2) Hwf)
    as (Hwf' & Hcons & Hev).
  split; [exact Hwf|]. split; [exact Hwf'|]. split.
  - apply Hcons. vm_compute. discriminate.
  - exact (proj1 (Hev 4 2 _ Hrun)).
Defined.

(** The slot of a late registrant can indeed equal the stored winner index:
    slots are cast to [uint32], so the registrant at position [2^32] is
    given slot 0, the winner index of the earlier draw, and the status still
    decrypts to false. *)
Lemma late_slot_meets_winner_index :
  reachable 1 (2 ^ 33) (latecomers (Z.to_nat (2 ^ 32 - 1))) ∧
  _hasDrawn (latecomers (Z.to_nat (2 ^ 32 - 1))) = true ∧
  ∃ s', register (sample_env (2 ^ 32 + 2) 8) 0 [] (latecomers (Z.to_nat (2 ^ 32 - 1))) =
          Ok (ParticipantRegistered (2 ^ 32 + 2) 0, s') ∧
    decrypt (getEncryptedWinnerIndex s') = Some 0 ∧
    rd 0 (_indices s') (2 ^ 32 + 2) = 0 ∧
    decrypt (rd HZero (_winStatus s') (2 ^ 32 + 2)) = Some 0.
Proof.
  split; [apply latecomers_reachable|]. split; [apply latecomers_drawn|].
  apply latecomers_slot_wraps; lia.
Qed.

(** ** The further properties on the sample deployment *)

(** X1 on a deployment where a second draw follows the first: participant 3
    keeps the grant on the status of the first draw. *)
Lemma grants_never_revoked_witness :
  (HEq (HTrivial Uint32 1) (HTrivial Uint32 1), 3)
    ∈ acl (execute (sample_env 1 7) DrawWinner (crowd 5 3)) ∧
  (HEq (HTrivial Uint32 1) (HTrivial Uint32 1), 3)
    ∈ acl (execute_all [(sample_env 9 8, Register 0 []); (sample_env 1 9, DrawWinner)]
             (execute (sample_env 1 7) DrawWinner (crowd 5 3))).
Proof.
  assert ((HEq (HTrivial Uint32 1) (HTrivial Uint32 1), 3)
            ∈ acl (execute (sample_env 1 7) DrawWinner (crowd 5 3))) as Hin.
  { apply list_elem_of_In. vm_compute. tauto. }
  split; [exact Hin|].
  exact (grants_never_revoked
           [(sample_env 9 8, Register 0 []); (sample_env 1 9, DrawWinner)] _ _ Hin).
Defined.

(** X2 on a deployment with three participants, through a draw and a late
    registration. *)
Lemma positions_stable_witness :
  _participants (crowd 5 3) !! 1%nat = Some 3 ∧
  _participants (execute_all [(sample_env 1 7, DrawWinner); (sample_env 9 8, Register 0 [])]
                   (crowd 5 3)) !! 1%nat = Some 3 ∧
  participantCount (crowd 5 3)
    ≤ participantCount (execute_all [(sample_env 1 7, DrawWinner);
                                     (sample_env 9 8, Register 0 [])] (crowd 5 3)).
Proof.
  split; [reflexivity|].
  exact (positions_stable [(sample_env 1 7, DrawWinner); (sample_env 9 8, Register 0 [])]
           (crowd 5 3) 1%nat 3 eq_refl).
Defined.

(** X3 on a deployment where account 9 registers the input handle 42. *)
Lemma encrypted_id_round_trip_witness :
  register (sample_env 9 8) 42 [] (crowd 5 2) =
    Ok (ParticipantRegistered 9 2, execute (sample_env 9 8) (Register 42 []) (crowd 5 2)) ∧
  getEncryptedId (crowd 5 2) 9 = Revert NotRegistered ∧
  getEncryptedId
    (execute_all [(sample_env 1 9, DrawWinner)]
       (execute (sample_env 9 8) (Register 42 []) (crowd 5 2))) 9 = Ok (HInput 42).
Proof.
  assert (register (sample_env 9 8) 42 [] (crowd 5 2) =
    Ok (ParticipantRegistered 9 2, execute (sample_env 9 8) (Register 42 []) (crowd 5 2)))
    as Hok by (vm_compute; reflexivity).
  destruct (encrypted_id_round_trip (sample_env 9 8) 42 [] (crowd 5 2) _ _ Hok)
    as (Hbefore & _ & Hafter).
  split; [exact Hok|]. split; [exact Hbefore|]. apply Hafter.
Defined.

(** X4 on a deployment with two participants: the registration of account 9
    leaves the entries of account 3 alone. *)
Lemma register_touches_only_caller_witness :
  3 ≠ msg_sender (sample_env 9 8) ∧
  getEncryptedWinStatus (execute (sample_env 9 8) (Register 42 []) (crowd 5 2)) 3 =
    getEncryptedWinStatus (crowd 5 2) 3 ∧
  getEncryptedId (execute (sample_env 9 8) (Register 42 []) (crowd 5 2)) 3 =
    getEncryptedId (crowd 5 2) 3.
Proof.
  assert (3 ≠ msg_sender (sample_env 9 8)) as Hne by (cbn; lia).
  destruct (register_touches_only_caller (sample_env 9 8) 42 [] (crowd 5 2) 3 Hne)
    as (_ & _ & Hid & Hst & _).
  split; [exact Hne|]. split; [exact Hst|exact Hid].
Defined.

(** X5 on a deployment with three participants drawn at time 7. *)
Lemma drawWinner_keeps_registry_witness :
  drawWinner (sample_env 1 7) (crowd 5 3) =
    Ok (WinnerDrawn 11 3, execute (sample_env 1 7) DrawWinner (crowd 5 3)) ∧
  _participants (execute (sample_env 1 7) DrawWinner (crowd 5 3)) = _participants (crowd 5 3) ∧
  lastDrawTimestamp (execute (sample_env 1 7) DrawWinner (crowd 5 3)) = 7.
Proof.
  assert (drawWinner (sample_env 1 7) (crowd 5 3) =
    Ok (WinnerDrawn 11 3, execute (sample_env 1 7) DrawWinner (crowd 5 3))) as Hok
    by (vm_compute; reflexivity).
  destruct (drawWinner_keeps_registry (sample_env 1 7) (crowd 5 3) _ _ Hok)
    as (Hps & _ & _ & _ & _ & Hts & _).
  split; [exact Hok|]. split; [exact Hps|exact Hts].
Defined.

(** X6 on a deployment with two participants and no draw. *)
Lemma winner_index_zero_iff_undrawn_witness :
  reachable 1 5 (crowd 5 2) ∧
  getEncryptedWinnerIndex (crowd 5 2) = HZero ∧
  lastDrawTimestamp (crowd 5 2) = 0 ∧
  getEncryptedWinStatus (crowd 5 2) 3 = Ok (FHE_asEbool false).
Proof.
  assert (reachable 1 5 (crowd 5 2)) as Hreach by (apply crowd_reachable; lia).
  destruct (winner_index_zero_iff_undrawn 1 5 (crowd 5 2) Hreach) as [Hiff Hundrawn].
  destruct (Hundrawn eq_refl) as [Hts Hst].
  split; [exact Hreach|]. split; [exact (proj2 Hiff eq_refl)|]. split; [exact Hts|].
  exact (proj1 (Hst 3 eq_refl)).
Defined.

(** X7 on a deployment with three participants, a draw and a late
    registration: one winner still. *)
Lemma one_winner_in_every_state_witness :
  reachable 1 5 (execute (sample_env 9 8) (Register 0 [])
                   (execute (sample_env 1 7) DrawWinner (crowd 5 3))) ∧
  ∃ (w : nat) p,
    decrypt (getEncryptedWinnerIndex
               (execute (sample_env 9 8) (Register 0 [])
                  (execute (sample_env 1 7) DrawWinner (crowd 5 3)))) = Some (Z.of_nat w) ∧
    _participants (execute (sample_env 9 8) (Register 0 [])
                     (execute (sample_env 1 7) DrawWinner (crowd 5 3))) !! w = Some p ∧
    decrypt (rd HZero (_winStatus (execute (sample_env 9 8) (Register 0 [])
                         (execute (sample_env 1 7) DrawWinner (crowd 5 3)))) p) = Some 1.
Proof.
  assert (reachable 1 5 (execute (sample_env 9 8) (Register 0 [])
                           (execute (sample_env 1 7) DrawWinner (crowd 5 3)))) as Hreach
    by (do 2 apply reachable_call; apply crowd_reachable; lia).
  destruct (one_winner_in_every_state 1 5 _ Hreach) as (w & p & Hw & Hp & _ & Hone & _).
  - vm_compute. discriminate.
  - reflexivity.
  - split; [exact Hreach|]. exists w, p. split; [exact Hw|]. split; [exact Hp|exact Hone].
Defined.

(** X8 on the same deployment after the draw, for participant 2. *)
Lemma win_status_is_a_bit_witness :
  reachable 1 5 (execute (sample_env 1 7) DrawWinner (crowd 5 3)) ∧
  isRegistered (execute (sample_env 1 7) DrawWinner (crowd 5 3)) 2 = true ∧
  ∃ h, getEncryptedWinStatus (execute (sample_env 1 7) DrawWinner (crowd 5 3)) 2 = Ok h ∧
       h ≠ HZero ∧ (decrypt h = Some 0 ∨ decrypt h = Some 1).
Proof.
  assert (reachable 1 5 (execute (sample_env 1 7) DrawWinner (crowd 5 3))) as Hreach
    by (apply reachable_call, crowd_reachable; lia).
  destruct (win_status_is_a_bit 1 5 _ 2 Hreach) as [_ Hbit].
  split; [exact Hreach|]. split; [reflexivity|]. exact (Hbit eq_refl).
Defined.

(** X9 on a deployment with a draw and a late registration of account 9. *)
Lemma winner_index_readable_by_all_witness :
  reachable 1 5 (execute (sample_env 9 8) (Register 0 [])
                   (execute (sample_env 1 7) DrawWinner (crowd 5 3))) ∧
  (HTrivial Uint32 1, 9)
    ∈ acl (execute (sample_env 9 8) (Register 0 [])
             (execute (sample_env 1 7) DrawWinner (crowd 5 3))).
Proof.
  assert (reachable 1 5 (execute (sample_env 9 8) (Register 0 [])
                           (execute (sample_env 1 7) DrawWinner (crowd 5 3)))) as Hreach
    by (do 2 apply reachable_call; apply crowd_reachable; lia).
  destruct (winner_index_readable_by_all 1 5 _ Hreach eq_refl) as (_ & _ & Hall).
  split; [exact Hreach|]. exact (Hall 3%nat 9 eq_refl).
Defined.

(** X10 on a deployment with two participants. *)
Lemma encrypted_id_grants_witness :
  reachable 1 5 (crowd 5 2) ∧
  (∃ h, getEncryptedId (crowd 5 2) 3 = Ok h ∧ (h, 3) ∈ acl (crowd 5 2) ∧
        (h, this) ∈ acl (crowd 5 2)) ∧
  ∀ raw x, (HInput raw, x) ∈ acl (crowd 5 2) →
    x = this ∨ (isRegistered (crowd 5 2) x = true ∧
                getEncryptedId (crowd 5 2) x = Ok (HInput raw)).
Proof.
  assert (reachable 1 5 (crowd 5 2)) as Hreach by (apply crowd_reachable; lia).
  destruct (encrypted_id_grants 1 5 (crowd 5 2) Hreach) as [Hown Honly].
  split; [exact Hreach|]. split; [exact (Hown 3 eq_refl)|exact Honly].
Defined.

(** X11 on a deployment with limit 2 that is full. *)
Lemma full_stays_full_witness :
  participantCount (crowd 2 2) = maxParticipants (crowd 2 2) ∧
  _participants (execute_all [(sample_env 1 7, DrawWinner); (sample_env 9 8, Register 0 [])]
                   (crowd 2 2)) = [2; 3] ∧
  ∃ err, register (sample_env 10 9) 0 []
           (execute_all [(sample_env 1 7, DrawWinner); (sample_env 9 8, Register 0 [])]
              (crowd 2 2)) = Revert err.
Proof.
  destruct (full_stays_full [(sample_env 1 7, DrawWinner); (sample_env 9 8, Register 0 [])]
              (crowd 2 2) eq_refl) as [Hps Hrev].
  split; [reflexivity|]. split; [exact Hps|]. apply Hrev.
Defined.

(** X12 on a deployment with a draw: the holder of a grant on the status of
    position 1 is the contract or a registered participant. *)
Lemma grants_only_to_participants_witness :
  reachable 1 5 (execute (sample_env 1 7) DrawWinner (crowd 5 3)) ∧
  (HEq (HTrivial Uint32 1) (HTrivial Uint32 1), 3)
    ∈ acl (execute (sample_env 1 7) DrawWinner (crowd 5 3)) ∧
  (3 = this ∨ isRegistered (execute (sample_env 1 7) DrawWinner (crowd 5 3)) 3 = true).
Proof.
  assert (reachable 1 5 (execute (sample_env 1 7) DrawWinner (crowd 5 3))) as Hreach
    by (apply reachable_call, crowd_reachable; lia).
  assert ((HEq (HTrivial Uint32 1) (HTrivial Uint32 1), 3)
            ∈ acl (execute (sample_env 1 7) DrawWinner (crowd 5 3))) as Hin.
  { apply list_elem_of_In. vm_compute. tauto. }
  split; [exact Hreach|]. split; [exact Hin|].
  exact (grants_only_to_participants 1 5 _ _ _ Hreach Hin).
Defined.
